(** * xtop: the reactive update loop of the terminal dashboard

    A shallow embedding of [src/main.go]: the ingestion of process records
    ([getProcessInfo]), the message handler ([Update]), the row derivation
    ([updateTable]) and the per-core CPU block of [View], together with the
    properties the specification states about them.

    Conventions.
    - Go [string]s are byte strings: [String.string], whose [ascii] is one
      byte.  [len] is [String.length], [s[:n]] is [substring 0 n s], and the
      built-in [<] on strings is the byte-wise lexicographic [String.ltb].
    - [float64] and [float32] are IEEE 754 values, [spec_float] of the
      Standard Library, compared with [SFltb]: every comparison with a NaN is
      false, the two zeros are equal.
    - [int32] and [int] are [Z]; the only arithmetic on them, in the resize
      handler, has its 64-bit wrap-around written out.
    - The imported packages are not part of the repository.  [sort.Slice] is
      a parameter constrained by its documented contract, the [bubbles]
      table widget is a record of what [main.go] stores in it, and the text
      styles of [lipgloss] are tags on the rendered pieces. *)

From Stdlib Require Import List ZArith String Ascii Bool Lia.
From Stdlib Require Import Permutation SpecFloat DecimalString.
Import ListNotations.

Local Open Scope string_scope.
Local Open Scope list_scope.

(** ** Go built-ins and standard-library calls used by [main.go] *)

Module Go.

Definition float64 := spec_float.
Definition float32 := spec_float.

(** The comparison operators of Go on floating-point operands. *)
Definition flt (x y : spec_float) : bool := SFltb x y.
Definition fgt (x y : spec_float) : bool := SFltb y x.
Definition fle (x y : spec_float) : bool := SFleb x y.
Definition fge (x y : spec_float) : bool := SFleb y x.

Definition is_nan (x : spec_float) : bool :=
  match x with S754_nan => true | _ => false end.

(** The comparison operators of Go on strings. *)
Definition slt (x y : string) : bool := String.ltb x y.
Definition sgt (x y : string) : bool := String.ltb y x.
Definition sle (x y : string) : bool := String.leb x y.
Definition sge (x y : string) : bool := String.leb y x.

(** [len(s)] and [s[:n]]; the latter is only used under [len(s) > n]. *)
Definition len (s : string) : nat := String.length s.
Definition slice_to (n : nat) (s : string) : string := substring 0 n s.

(** Two's complement reduction to [int] (64 bits). *)
Definition wrap64 (z : Z) : Z :=
  (z + 2 ^ 63) mod 2 ^ 64 - 2 ^ 63.

(** [strconv.Itoa] and the verb [%d]. *)
Definition Itoa (z : Z) : string := NilZero.string_of_int (Z.to_int z).

(** Rounding of the non-negative fraction [num / den] to the nearest
    integer, ties to even, as the decimal conversion of [strconv] does. *)
Definition round_half_even (num den : Z) : Z :=
  let q := (num / den)%Z in
  let r := (num mod den)%Z in
  match (2 * r ?= den)%Z with
  | Lt => q
  | Gt => (q + 1)%Z
  | Eq => if Z.even q then q else (q + 1)%Z
  end.

(** Ten times the magnitude [m * 2^e], rounded to an integer. *)
Definition tenths (m : positive) (e : Z) : Z :=
  if (0 <=? e)%Z then (Zpos m * 2 ^ e * 10)%Z
  else round_half_even (Zpos m * 10) (2 ^ (- e)).

(** [fmt.Sprintf("%.1f", x)]. *)
Definition Sprintf_1f (x : spec_float) : string :=
  match x with
  | S754_nan => "NaN"
  | S754_infinity s => if s then "-Inf" else "+Inf"
  | S754_zero s => (if s then "-" else "") ++ "0.0"
  | S754_finite s m e =>
      let t := tenths m e in
      (if s then "-" else "") ++ Itoa (t / 10) ++ "." ++ Itoa (t mod 10)
  end.

End Go.

(** ** Data model *)

(** What the calls on a [*process.Process] of gopsutil return.  [main.go]
    drops every error of these calls and keeps the value, so a handle is
    the tuple of the values its methods give. *)
Record Process := mkProcess {
  Pid : Z;
  proc_Name : string;
  proc_CPUPercent : Go.float64;
  proc_MemoryPercent : Go.float32;
  proc_Status : string;
  proc_Username : string
}.

Record ProcessInfo := mkProcessInfo {
  PID : Z;
  Name : string;
  CPUPerc : Go.float64;
  MemPerc : Go.float32;
  Status : string;
  User : string
}.

Record AvgStat := mkAvgStat {
  Load1 : Go.float64;
  Load5 : Go.float64;
  Load15 : Go.float64
}.

Record VirtualMemoryStat := mkVirtualMemoryStat {
  Total : Z;
  Used : Z;
  UsedPercent : Go.float64
}.

(** [systemStats]; a slice of pointers is a list of options, [None] for
    [nil]. *)
Record systemStats := mkSystemStats {
  uptime : Z;
  loadAvg : option AvgStat;
  cpuPercent : list Go.float64;
  memStats : option VirtualMemoryStat;
  processes : list (option Process);
  processInfo : list ProcessInfo
}.

Definition emptyStats : systemStats :=
  mkSystemStats 0 None [] None [] [].

(** ** Ingestion: [getProcessInfo] *)

(** The body of the loop after the two [continue] guards. *)
Definition ingest (p : Process) : ProcessInfo :=
  let info :=
    mkProcessInfo (Pid p) (proc_Name p) (proc_CPUPercent p)
                  (proc_MemoryPercent p) (proc_Status p) (proc_Username p) in
  if (8 <? Go.len (User info))%nat
  then mkProcessInfo (PID info) (Name info) (CPUPerc info) (MemPerc info)
                     (Status info) (Go.slice_to 8 (User info))
  else info.

(** The [for _, p := range processes] loop, with the slice built so far. *)
Fixpoint getProcessInfo_loop (ps : list (option Process))
                             (acc : list ProcessInfo) : list ProcessInfo :=
  match ps with
  | [] => acc
  | None :: rest => getProcessInfo_loop rest acc
  | Some p :: rest =>
      if String.eqb (proc_Name p) ""
      then getProcessInfo_loop rest acc
      else getProcessInfo_loop rest (acc ++ [ingest p])
  end.

Definition getProcessInfo (ps : list (option Process)) : list ProcessInfo :=
  getProcessInfo_loop ps [].

(** The sampling command [updateStats], as a function of what the calls to
    the host return ([None] for a call that fails). *)
Record Host := mkHost {
  host_Info : option Z;
  load_Avg : option AvgStat;
  cpu_Percent : option (list Go.float64);
  mem_VirtualMemory : option VirtualMemoryStat;
  process_Processes : option (list (option Process))
}.

Definition second : Z := 1000000000.

Definition updateStats (h : Host) : systemStats :=
  let stats := emptyStats in
  let stats :=
    match host_Info h with
    | Some up =>
        mkSystemStats (Go.wrap64 (Go.wrap64 up * second)) (loadAvg stats)
                      (cpuPercent stats) (memStats stats) (processes stats)
                      (processInfo stats)
    | None => stats
    end in
  let stats :=
    match load_Avg h with
    | Some l =>
        mkSystemStats (uptime stats) (Some l) (cpuPercent stats)
                      (memStats stats) (processes stats) (processInfo stats)
    | None => stats
    end in
  let stats :=
    match cpu_Percent h with
    | Some c =>
        mkSystemStats (uptime stats) (loadAvg stats) c (memStats stats)
                      (processes stats) (processInfo stats)
    | None => stats
    end in
  let stats :=
    match mem_VirtualMemory h with
    | Some v =>
        mkSystemStats (uptime stats) (loadAvg stats) (cpuPercent stats)
                      (Some v) (processes stats) (processInfo stats)
    | None => stats
    end in
  match process_Processes h with
  | Some ps =>
      mkSystemStats (uptime stats) (loadAvg stats) (cpuPercent stats)
                    (memStats stats) ps (getProcessInfo ps)
  | None => stats
  end.

(** ** The comparator handed to [sort.Slice] *)

Inductive Branch := ByCPU | ByMemory | ByPID | ByName | FallThrough.

(** The [switch m.sortBy] of the comparator. *)
Definition less_branch (sortBy : string) : Branch :=
  if String.eqb sortBy "cpu" then ByCPU
  else if String.eqb sortBy "memory" then ByMemory
  else if String.eqb sortBy "pid" then ByPID
  else if String.eqb sortBy "name" then ByName
  else FallThrough.

(** [less(i, j)] on the elements at [i] and [j]. *)
Definition less (sortBy : string) (ascending : bool)
                (a b : ProcessInfo) : bool :=
  match less_branch sortBy with
  | ByCPU =>
      if ascending then Go.flt (CPUPerc a) (CPUPerc b)
      else Go.fgt (CPUPerc a) (CPUPerc b)
  | ByMemory =>
      if ascending then Go.flt (MemPerc a) (MemPerc b)
      else Go.fgt (MemPerc a) (MemPerc b)
  | ByPID =>
      if ascending then (PID a <? PID b)%Z else (PID a >? PID b)%Z
  | ByName =>
      if ascending then Go.slt (Name a) (Name b)
      else Go.sgt (Name a) (Name b)
  | FallThrough => false
  end.

(** ** Table rows *)

Definition Row := list string.

(** The body of the row loop after the [break] guard. *)
Definition command_of (proc : ProcessInfo) : string :=
  let command := Name proc in
  if (28 <? Go.len command)%nat then Go.slice_to 28 command ++ ".."
  else command.

Definition mkRow (proc : ProcessInfo) : Row :=
  [ Go.Itoa (PID proc);
    User proc;
    Go.Sprintf_1f (CPUPerc proc);
    Go.Sprintf_1f (MemPerc proc);
    Status proc;
    command_of proc ].

(** The [for _, proc := range m.stats.processInfo] loop, with the rows
    built so far. *)
Fixpoint rows_loop (ps : list ProcessInfo) (rows : list Row) : list Row :=
  match ps with
  | [] => rows
  | proc :: rest =>
      if (50 <=? List.length rows)%nat then rows
      else rows_loop rest (rows ++ [mkRow proc])
  end.

(** ** The table widget of [bubbles]

    Of the widget's state the record keeps what [main.go] hands to it: the
    columns, the rows, and the width and height last passed to [SetWidth]
    and [SetHeight].  The cursor and scroll offset are private to the
    widget; [table.Update] moves them on navigation keys and touches none
    of the fields kept here. *)

Record Column := mkColumn { Title : string; Width : Z }.

Record table_Model := mkTable {
  cols : list Column;
  rows : list Row;
  width : Z;
  height : Z
}.

Definition table_SetRows (r : list Row) (t : table_Model) : table_Model :=
  mkTable (cols t) r (width t) (height t).

Definition table_SetWidth (w : Z) (t : table_Model) : table_Model :=
  mkTable (cols t) (rows t) w (height t).

Definition table_SetHeight (h : Z) (t : table_Model) : table_Model :=
  mkTable (cols t) (rows t) (width t) h.

(** ** Messages, commands and the model *)

Inductive Msg :=
| KeyMsg (key : string)          (* tea.KeyMsg, by its [String()] *)
| tickMsg (t : Z)
| statsMsg (s : systemStats)
| WindowSizeMsg (w h : Z)
| otherMsg.                      (* a message of any other type *)

Inductive Cmd :=
| cmdNil
| cmdQuit
| cmdTick
| cmdUpdateStats
| cmdBatch (c1 c2 : Cmd).

Definition table_Update (msg : Msg) (t : table_Model) : table_Model * Cmd :=
  (t, cmdNil).

Record model := mkModel {
  table : table_Model;
  stats : systemStats;
  sortBy : string;
  ascending : bool;
  lastUpdate : Z;
  err : option string
}.

Definition initialModel : model :=
  let columns :=
    [ mkColumn "PID" 8; mkColumn "USER" 10; mkColumn "CPU%" 8;
      mkColumn "MEM%" 8; mkColumn "STATUS" 10; mkColumn "COMMAND" 30 ] in
  let t := mkTable columns [] 0 15 in
  mkModel t emptyStats "cpu" false 0 None.

Definition Init : Cmd := cmdBatch cmdTick cmdUpdateStats.

Definition set_sort (s : string) (m : model) : model :=
  mkModel (table m) (stats m) s (negb (ascending m)) (lastUpdate m) (err m).

Definition set_table (t : table_Model) (m : model) : model :=
  mkModel t (stats m) (sortBy m) (ascending m) (lastUpdate m) (err m).

Definition set_stats (s : systemStats) (m : model) : model :=
  mkModel (table m) s (sortBy m) (ascending m) (lastUpdate m) (err m).

Definition set_processInfo (l : list ProcessInfo) (s : systemStats)
  : systemStats :=
  mkSystemStats (uptime s) (loadAvg s) (cpuPercent s) (memStats s)
                (processes s) l.

(** The two statements after the type switch of [Update]. *)
Definition forward (msg : Msg) (m : model) : model * Cmd :=
  let (t, cmd) := table_Update msg (table m) in
  (set_table t m, cmd).

Definition set_lastUpdate (t : Z) (m : model) : model :=
  mkModel (table m) (stats m) (sortBy m) (ascending m) t (err m).

(** ** The CPU block of [View] *)

Inductive Style := headerStyle | systemInfoStyle | processTableStyle.

(** What is written to the [strings.Builder]: plain text, or text rendered
    under a style. *)
Inductive Chunk :=
| Text (s : string)
| Styled (st : Style) (s : string).

Definition newline : string := String (ascii_of_nat 10) EmptyString.

(** The [for i, usage := range m.stats.cpuPercent] loop; [n] is
    [len(m.stats.cpuPercent)], [i] the index of the head of [rest], [b] the
    builder. *)
Fixpoint cpu_loop (n i : nat) (rest : list Go.float64) (b : list Chunk)
  : list Chunk :=
  match rest with
  | [] => b
  | usage :: rest' =>
      let b := if (0 <? i)%nat then b ++ [Text " "] else b in
      let b := b ++ [Text (Go.Sprintf_1f usage ++ "%")] in
      if (7 <=? i)%nat then
        if (8 <? n)%nat
        then b ++ [Text (" (+" ++ Go.Itoa (Z.of_nat n - 8) ++ " more)")]
        else b
      else cpu_loop n (S i) rest' b
  end.

(** Lines 300 to 316 of [View], from the builder [b] on. *)
Definition view_cpu (s : systemStats) (b : list Chunk) : list Chunk :=
  if (0 <? List.length (cpuPercent s))%nat then
    let b := b ++ [Styled systemInfoStyle "CPU: "] in
    let b := cpu_loop (List.length (cpuPercent s)) 0 (cpuPercent s) b in
    b ++ [Text newline]
  else b.

(** The CPU line as the specification words it: the first eight
    percentages separated by blanks, then the count of the cores left
    out. *)
Fixpoint join_blank (l : list string) : list Chunk :=
  match l with
  | [] => []
  | [x] => [Text x]
  | x :: rest => Text x :: Text " " :: join_blank rest
  end.

Definition cpu_line_spec (cpus : list Go.float64) : list Chunk :=
  match cpus with
  | [] => []
  | _ =>
      [Styled systemInfoStyle "CPU: "]
      ++ join_blank (map (fun u => (Go.Sprintf_1f u ++ "%")%string)
                         (firstn 8 cpus))
      ++ (if (8 <? List.length cpus)%nat
          then [Text (" (+" ++ Go.Itoa (Z.of_nat (List.length cpus) - 8)
                      ++ " more)")]
          else [])
      ++ [Text newline]
  end.

(** ** The sort indicator of [View] *)

(** Lines 327 to 330 of [View]: the text written after the header lines,
    the map from the direction flag to its word looked up at
    [m.ascending]. *)
Definition sort_indicator (m : model) : string :=
  "Sorted by: " ++ sortBy m ++ " ("
  ++ (if ascending m then "ascending" else "descending") ++ ")".

Definition view_sort_indicator (m : model) (b : list Chunk) : list Chunk :=
  b ++ [Text (sort_indicator m ++ newline ++ newline)].

(** ** Vocabulary of the specification *)

(** The four sort criteria, the name each has in [m.sortBy], and the key
    that selects it. *)
Inductive Criterion := cpu | memory | pid | name.

Definition criterion_name (c : Criterion) : string :=
  match c with
  | cpu => "cpu"
  | memory => "memory"
  | pid => "pid"
  | name => "name"
  end.

Definition sort_key (c : Criterion) : string :=
  match c with
  | cpu => "c"
  | memory => "m"
  | pid => "p"
  | name => "n"
  end.

(** A process of a Snapshot that has a name: a handle that is not [nil]
    and whose [Name()] is not empty. *)
Definition has_name (p : option Process) : bool :=
  match p with
  | Some p => negb (String.eqb (proc_Name p) "")
  | None => false
  end.

Fixpoint named (ps : list (option Process)) : list Process :=
  match ps with
  | [] => []
  | Some p :: rest =>
      if String.eqb (proc_Name p) "" then named rest else p :: named rest
  | None :: rest => named rest
  end.

(** [t] is made of the first [n] bytes of [s]. *)
Definition first_bytes (n : nat) (s t : string) : Prop :=
  String.length t = n /\ exists rest, s = (t ++ rest)%string.

(** The characters of a string read as UTF-8: every byte starts one,
    except the continuation bytes, those from 128 to 191. *)
Definition is_continuation (c : ascii) : bool :=
  (128 <=? nat_of_ascii c)%nat && (nat_of_ascii c <? 192)%nat.

Fixpoint rune_count (s : string) : nat :=
  match s with
  | EmptyString => 0%nat
  | String c rest =>
      ((if is_continuation c then 0 else 1) + rune_count rest)%nat
  end.

(** Every pair of neighbours of a list is in [R]. *)
Definition adjacent {A : Type} (R : A -> A -> Prop) (l : list A) : Prop :=
  forall i a b, nth_error l i = Some a -> nth_error l (S i) = Some b -> R a b.

(** Row [a] may stand right before row [b] under criterion [c] in the given
    direction, with the comparison operators of Go. *)
Definition key_ordered (c : Criterion) (asc : bool) (a b : ProcessInfo)
  : Prop :=
  match c with
  | cpu =>
      if asc then Go.fle (CPUPerc a) (CPUPerc b) = true
      else Go.fge (CPUPerc a) (CPUPerc b) = true
  | memory =>
      if asc then Go.fle (MemPerc a) (MemPerc b) = true
      else Go.fge (MemPerc a) (MemPerc b) = true
  | pid =>
      if asc then (PID a <= PID b)%Z else (PID a >= PID b)%Z
  | name =>
      if asc then Go.sle (Name a) (Name b) = true
      else Go.sge (Name a) (Name b) = true
  end.

(** The key of [p] under criterion [c] is not a NaN; void for [pid] and
    [name]. *)
Definition not_nan_key (c : Criterion) (p : ProcessInfo) : Prop :=
  match c with
  | cpu => Go.is_nan (CPUPerc p) = false
  | memory => Go.is_nan (MemPerc p) = false
  | pid | name => True
  end.

Definition nan_free (c : Criterion) (ps : list ProcessInfo) : Prop :=
  Forall (not_nan_key c) ps.

(** Position of a floating-point value that is not a NaN in the order of
    [SFcompare], as a triple compared lexicographically. *)
Definition rank (x : spec_float) : Z * Z * Z :=
  match x with
  | S754_zero _ => (0, 0, 0)%Z
  | S754_infinity s => (if s then (-2)%Z else 2%Z, 0%Z, 0%Z)
  | S754_nan => (0, 0, 0)%Z
  | S754_finite s m e =>
      if s then ((-1)%Z, (- e)%Z, (- Zpos m)%Z) else (1%Z, e, Zpos m)
  end.

Definition lex_lt (a b : Z * Z * Z) : Prop :=
  let '(a1, a2, a3) := a in
  let '(b1, b2, b3) := b in
  (a1 < b1 \/ (a1 = b1 /\ (a2 < b2 \/ (a2 = b2 /\ a3 < b3))))%Z.

(** ** [sort.Slice]

    The library function is a parameter of the development.  What is
    assumed of it is its documented contract: the slice is rearranged, and
    it ends in ascending order for [less] when [less] is a transitive
    ordering of its elements.  The two transitivity conditions are those
    the documentation of [sort.Interface] asks of [Less]; the same
    documentation notes that [<] on floating-point values stops being such
    an ordering once a NaN is among them. *)

Definition transitive_ordering_on {A : Type} (less : A -> A -> bool)
                                  (l : list A) : Prop :=
  (forall x, In x l -> less x x = false) /\
  (forall x y z, In x l -> In y l -> In z l ->
     less x y = true -> less y z = true -> less x z = true) /\
  (forall x y z, In x l -> In y l -> In z l ->
     less x y = false -> less y z = false -> less x z = false).

(** Ascending for [less], as [sort.IsSorted] tests it: no element is less
    than its predecessor. *)
Definition ascending_for {A : Type} (less : A -> A -> bool)
  : list A -> Prop :=
  adjacent (fun x y => less y x = false).

(** The insertion sort of package [sort], which [sort.Slice] runs on a
    slice of at most twelve elements: each element in turn is swapped
    towards the front for as long as it is less than its left neighbour.
    [front] is the part already in place, last element first. *)
Fixpoint insert_back {A : Type} (less : A -> A -> bool) (x : A)
                     (front : list A) : list A :=
  match front with
  | [] => [x]
  | y :: front' =>
      if less x y then y :: insert_back less x front' else x :: front
  end.

Definition insertionSort {A : Type} (less : A -> A -> bool) (l : list A)
  : list A :=
  rev (fold_left (fun front x => insert_back less x front) l []).

(** ** Sample data

    The scenario of the specification: three processes, one without a
    name.  The percentages are binary64 values in canonical form. *)

Definition f64 (z : Z) : Go.float64 := binary_normalize 53 1024 z 0 false.

Definition sample_processes : list (option Process) :=
  [ Some (mkProcess 1 "a" (f64 10) (f64 1) "S" "root");
    Some (mkProcess 2 "b" (f64 90) (f64 2) "R" "administrator");
    Some (mkProcess 3 "" (f64 50) (f64 3) "S" "root") ].

Definition sample_host : Host :=
  mkHost (Some 3600%Z) None (Some [f64 25; f64 75]) None
         (Some sample_processes).

(** Two process records, the cpu percentage of the first a NaN. *)
Definition nan_input : list ProcessInfo :=
  [ mkProcessInfo 1 "a" S754_nan (f64 1) "S" "root";
    mkProcessInfo 2 "b" (f64 5) (f64 1) "S" "root" ].

(** The letter e with an acute accent, two bytes in UTF-8, and strings
    made with it: a name of 15 characters in 30 bytes, and a user of 8
    characters in 9 bytes. *)
Definition e_acute : string :=
  String (ascii_of_nat 195) (String (ascii_of_nat 169) EmptyString).

Fixpoint repeat_string (n : nat) (s : string) : string :=
  match n with
  | O => EmptyString
  | S n' => s ++ repeat_string n' s
  end.

Definition accented_name : string := repeat_string 15 e_acute.

Definition accented_user : string := "1234567" ++ e_acute.

Definition accented_record : ProcessInfo :=
  mkProcessInfo 7 accented_name (f64 1) (f64 1) "S" "root".

Definition accented_process : Process :=
  mkProcess 8 "a" (f64 1) (f64 1) "S" accented_user.

(** ** The update loop *)

Section Dashboard.

Variable sort_Slice :
  (ProcessInfo -> ProcessInfo -> bool) -> list ProcessInfo -> list ProcessInfo.

Hypothesis sort_Slice_permutes :
  forall less l, Permutation l (sort_Slice less l).

Hypothesis sort_Slice_sorts :
  forall less l,
    transitive_ordering_on less l -> ascending_for less (sort_Slice less l).

(** Row derivation: the sort and the row loop of [updateTable], as a
    function of the stored process records and the sort directive. *)
Definition retained (ps : list ProcessInfo) (by_ : string) (asc : bool)
  : list ProcessInfo :=
  firstn 50 (sort_Slice (less by_ asc) ps).

Definition deriveRows (ps : list ProcessInfo) (by_ : string) (asc : bool)
  : list Row :=
  rows_loop (sort_Slice (less by_ asc) ps) [].

Definition updateTable (m : model) : model :=
  let sorted :=
    sort_Slice (less (sortBy m) (ascending m)) (processInfo (stats m)) in
  let m := set_stats (set_processInfo sorted (stats m)) m in
  let rows := rows_loop (processInfo (stats m)) [] in
  set_table (table_SetRows rows (table m)) m.

Definition Update (msg : Msg) (m : model) : model * Cmd :=
  match msg with
  | KeyMsg key =>
      if String.eqb key "q" || String.eqb key "ctrl+c" then (m, cmdQuit)
      else if String.eqb key "c" then forward msg (set_sort "cpu" m)
      else if String.eqb key "m" then forward msg (set_sort "memory" m)
      else if String.eqb key "p" then forward msg (set_sort "pid" m)
      else if String.eqb key "n" then forward msg (set_sort "name" m)
      else forward msg m
  | tickMsg t =>
      (set_lastUpdate t m, cmdBatch cmdTick cmdUpdateStats)
  | statsMsg s =>
      forward msg (updateTable (set_stats s m))
  | WindowSizeMsg w h =>
      let t := table_SetWidth (Go.wrap64 (w - 4)) (table m) in
      let t := table_SetHeight (Go.wrap64 (h - 12)) t in
      forward msg (set_table t m)
  | otherMsg => forward msg m
  end.

(** The states the loop can be in: [initialModel] and whatever [Update]
    makes of a reachable state. *)
Inductive reachable : model -> Prop :=
| reach_init : reachable initialModel
| reach_step : forall msg m, reachable m -> reachable (fst (Update msg m)).


(** ** Lists *)

Lemma getProcessInfo_loop_named :
  forall ps acc, getProcessInfo_loop ps acc = acc ++ map ingest (named ps).
Proof.
  induction ps as [|[p|] rest IH]; intros acc; simpl.
  - now rewrite app_nil_r.
  - destruct (String.eqb (proc_Name p) ""); rewrite IH; [reflexivity|].
    now rewrite <- app_assoc.
  - apply IH.
Qed.

Lemma getProcessInfo_named :
  forall ps, getProcessInfo ps = map ingest (named ps).
Proof. intros ps. unfold getProcessInfo. apply getProcessInfo_loop_named. Qed.

Lemma named_length :
  forall ps, List.length (named ps) = List.length (filter has_name ps).
Proof.
  induction ps as [|[p|] rest IH]; simpl; auto.
  destruct (String.eqb (proc_Name p) ""); simpl; auto.
Qed.

Lemma rows_loop_firstn :
  forall ps acc,
    (List.length acc <= 50)%nat ->
    rows_loop ps acc
    = acc ++ map mkRow (firstn (50 - List.length acc) ps).
Proof.
  induction ps as [|p rest IH]; intros acc Hacc.
  - simpl. now rewrite firstn_nil, app_nil_r.
  - cbn [rows_loop].
    destruct (Nat.leb_spec 50 (List.length acc)) as [Hge|Hlt].
    + replace (50 - List.length acc)%nat with 0%nat by lia.
      simpl. now rewrite app_nil_r.
    + rewrite IH by (rewrite length_app; simpl; lia).
      rewrite length_app. simpl List.length.
      replace (50 - List.length acc)%nat
        with (S (50 - (List.length acc + 1)))%nat by lia.
      simpl. now rewrite <- app_assoc.
Qed.

Lemma adjacent_nil : forall A (R : A -> A -> Prop), adjacent R [].
Proof. intros A R [|i] a b H; discriminate. Qed.

Lemma adjacent_one : forall A (R : A -> A -> Prop) x, adjacent R [x].
Proof. intros A R x [|[|i]] a b H1 H2; discriminate. Qed.

Lemma adjacent_cons :
  forall A (R : A -> A -> Prop) x y l,
    R x y -> adjacent R (y :: l) -> adjacent R (x :: y :: l).
Proof.
  intros A R x y l Hxy Hl [|i] a b Ha Hb.
  - simpl in Ha, Hb. now inversion Ha; inversion Hb; subst.
  - apply (Hl i); assumption.
Qed.

Lemma adjacent_tail :
  forall A (R : A -> A -> Prop) x l, adjacent R (x :: l) -> adjacent R l.
Proof. intros A R x l H i a b Ha Hb. apply (H (S i)); assumption. Qed.

Lemma adjacent_head :
  forall A (R : A -> A -> Prop) x y l, adjacent R (x :: y :: l) -> R x y.
Proof. intros A R x y l H. apply (H 0%nat); reflexivity. Qed.

Lemma adjacent_split :
  forall A (R : A -> A -> Prop) l,
    adjacent R l <-> (forall l1 a b l2, l = l1 ++ a :: b :: l2 -> R a b).
Proof.
  intros A R l. split.
  - intros H l1 a b l2 ->. apply (H (List.length l1)).
    + rewrite nth_error_app2, Nat.sub_diag by lia. reflexivity.
    + rewrite nth_error_app2 by lia.
      replace (S (List.length l1) - List.length l1)%nat with 1%nat by lia.
      reflexivity.
  - intros H i a b Ha Hb.
    destruct (nth_error_split _ _ Ha) as (l1 & l2 & -> & Hlen).
    rewrite nth_error_app2 in Hb by lia.
    replace (S i - List.length l1)%nat with 1%nat in Hb by lia.
    destruct l2 as [|b' l2]; [discriminate|].
    simpl in Hb. inversion Hb; subst b'.
    eapply H. reflexivity.
Qed.

Lemma adjacent_rev :
  forall A (R : A -> A -> Prop) l,
    adjacent R l -> adjacent (fun x y => R y x) (rev l).
Proof.
  intros A R l H. apply adjacent_split. intros l1 a b l2 E.
  rewrite adjacent_split in H. apply (H (rev l2) b a (rev l1)).
  rewrite <- (rev_involutive l), E, rev_app_distr. simpl.
  now rewrite <- !app_assoc.
Qed.

Lemma adjacent_firstn :
  forall A (R : A -> A -> Prop) n l, adjacent R l -> adjacent R (firstn n l).
Proof.
  intros A R n l H i a b Ha Hb.
  rewrite nth_error_firstn in Ha, Hb.
  destruct (i <? n)%nat; [|discriminate].
  destruct (S i <? n)%nat; [|discriminate].
  apply (H i); assumption.
Qed.

Lemma adjacent_weaken :
  forall A (R R' : A -> A -> Prop) l,
    (forall a b, In a l -> In b l -> R a b -> R' a b) ->
    adjacent R l -> adjacent R' l.
Proof.
  intros A R R' l HR H i a b Ha Hb.
  apply HR; [eapply nth_error_In; eauto .. | apply (H i); assumption].
Qed.

(** ** The order of floating-point values *)

Ltac order_case :=
  simpl; solve [split; intros; try discriminate; try lia; reflexivity].

Lemma SFltb_rank :
  forall x y,
    Go.is_nan x = false -> Go.is_nan y = false ->
    (SFltb x y = true <-> lex_lt (rank x) (rank y)).
Proof.
  intros x y Hx Hy. unfold SFltb.
  destruct x as [sx|sx| |sx mx ex], y as [sy|sy| |sy my ey];
    try discriminate;
    try destruct sx; try destruct sy; try order_case.
  all: simpl; destruct (Z.compare_spec ex ey); try order_case.
  all: change (Pcompare mx my Eq) with (Pos.compare mx my).
  all: destruct (Pos.compare_spec mx my); order_case.
Qed.

Lemma SFleb_rank :
  forall x y,
    Go.is_nan x = false -> Go.is_nan y = false ->
    (SFleb x y = true <-> ~ lex_lt (rank y) (rank x)).
Proof.
  intros x y Hx Hy. unfold SFleb.
  destruct x as [sx|sx| |sx mx ex], y as [sy|sy| |sy my ey];
    try discriminate;
    try destruct sx; try destruct sy; try order_case.
  all: simpl; destruct (Z.compare_spec ex ey); try order_case.
  all: change (Pcompare mx my Eq) with (Pos.compare mx my).
  all: destruct (Pos.compare_spec mx my); order_case.
Qed.

Lemma lex_lt_irrefl : forall a, ~ lex_lt a a.
Proof. intros [[a1 a2] a3]. unfold lex_lt. lia. Qed.

Lemma lex_lt_trans :
  forall a b c, lex_lt a b -> lex_lt b c -> lex_lt a c.
Proof.
  intros [[a1 a2] a3] [[b1 b2] b3] [[c1 c2] c3]. unfold lex_lt. lia.
Qed.

Lemma lex_lt_negtrans :
  forall a b c, ~ lex_lt a b -> ~ lex_lt b c -> ~ lex_lt a c.
Proof.
  intros [[a1 a2] a3] [[b1 b2] b3] [[c1 c2] c3]. unfold lex_lt. lia.
Qed.

Lemma bool_false_iff : forall b P, (b = true <-> P) -> (b = false <-> ~ P).
Proof.
  intros [|] P [H1 H2]; split; intros H; try discriminate; auto.
  - exfalso. apply H. now apply H1.
  - intros HP. now apply H2 in HP.
Qed.

Lemma SFltb_irrefl : forall x, SFltb x x = false.
Proof.
  intros x. destruct (Go.is_nan x) eqn:Hx.
  - destruct x; try discriminate. reflexivity.
  - apply (bool_false_iff _ _ (SFltb_rank x x Hx Hx)). apply lex_lt_irrefl.
Qed.

Lemma SFltb_trans :
  forall x y z,
    Go.is_nan x = false -> Go.is_nan y = false -> Go.is_nan z = false ->
    SFltb x y = true -> SFltb y z = true -> SFltb x z = true.
Proof.
  intros x y z Hx Hy Hz Hxy Hyz.
  apply SFltb_rank in Hxy, Hyz; trivial.
  apply SFltb_rank; trivial. eapply lex_lt_trans; eauto.
Qed.

Lemma SFltb_negtrans :
  forall x y z,
    Go.is_nan x = false -> Go.is_nan y = false -> Go.is_nan z = false ->
    SFltb x y = false -> SFltb y z = false -> SFltb x z = false.
Proof.
  intros x y z Hx Hy Hz Hxy Hyz.
  apply (bool_false_iff _ _ (SFltb_rank _ _ Hx Hy)) in Hxy.
  apply (bool_false_iff _ _ (SFltb_rank _ _ Hy Hz)) in Hyz.
  apply (bool_false_iff _ _ (SFltb_rank _ _ Hx Hz)).
  eapply lex_lt_negtrans; eauto.
Qed.

(** [!(y < x)] gives [x <= y] when neither is a NaN. *)
Lemma SFltb_false_SFleb :
  forall x y,
    Go.is_nan x = false -> Go.is_nan y = false ->
    SFltb y x = false -> SFleb x y = true.
Proof.
  intros x y Hx Hy H.
  apply SFleb_rank; trivial.
  now apply (bool_false_iff _ _ (SFltb_rank _ _ Hy Hx)).
Qed.

(** ** The order of strings *)

Lemma ascii_compare_trans :
  forall c a b d,
    Ascii.compare a b = c -> Ascii.compare b d = c -> Ascii.compare a d = c.
Proof.
  unfold Ascii.compare. intros c a b d H1 H2.
  destruct c.
  - apply N.compare_eq_iff in H1, H2. apply N.compare_eq_iff. congruence.
  - rewrite N.compare_lt_iff in *. lia.
  - rewrite N.compare_gt_iff in *. lia.
Qed.

Lemma string_compare_trans :
  forall c s1 s2 s3,
    String.compare s1 s2 = c -> String.compare s2 s3 = c ->
    String.compare s1 s3 = c.
Proof.
  intros c. induction s1 as [|a s1 IH]; intros [|b s2] [|d s3]; simpl;
    try congruence.
  destruct (Ascii.compare a b) eqn:Hab, (Ascii.compare b d) eqn:Hbd;
    intros H1 H2; try congruence.
  - rewrite (ascii_compare_trans Eq a b d Hab Hbd). eauto.
  - apply Ascii.compare_eq_iff in Hab. subst b. now rewrite Hbd.
  - apply Ascii.compare_eq_iff in Hab. subst b. now rewrite Hbd.
  - apply Ascii.compare_eq_iff in Hbd. subst d. now rewrite Hab.
  - now rewrite (ascii_compare_trans Lt a b d Hab Hbd).
  - apply Ascii.compare_eq_iff in Hbd. subst d. now rewrite Hab.
  - now rewrite (ascii_compare_trans Gt a b d Hab Hbd).
Qed.

Lemma string_compare_refl : forall s, String.compare s s = Eq.
Proof.
  intros s. pose proof (String.compare_antisym s s) as H.
  destruct (String.compare s s); simpl in H; congruence.
Qed.

Lemma string_ltb_irrefl : forall s, String.ltb s s = false.
Proof. intros s. unfold String.ltb. now rewrite string_compare_refl. Qed.

Lemma string_ltb_trans :
  forall x y z,
    String.ltb x y = true -> String.ltb y z = true -> String.ltb x z = true.
Proof.
  unfold String.ltb. intros x y z Hxy Hyz.
  destruct (String.compare x y) eqn:H1; try discriminate.
  destruct (String.compare y z) eqn:H2; try discriminate.
  now rewrite (string_compare_trans Lt x y z H1 H2).
Qed.

Lemma string_ltb_negtrans :
  forall x y z,
    String.ltb x y = false -> String.ltb y z = false ->
    String.ltb x z = false.
Proof.
  unfold String.ltb. intros x y z Hxy Hyz.
  destruct (String.compare x y) eqn:H1; try discriminate;
    destruct (String.compare y z) eqn:H2; try discriminate.
  - apply String.compare_eq_iff in H1. subst y. now rewrite H2.
  - apply String.compare_eq_iff in H1. subst y. now rewrite H2.
  - apply String.compare_eq_iff in H2. subst z. now rewrite H1.
  - now rewrite (string_compare_trans Gt x y z H1 H2).
Qed.

Lemma string_ltb_false_leb :
  forall x y, String.ltb y x = false -> String.leb x y = true.
Proof.
  unfold String.ltb, String.leb. intros x y H.
  rewrite String.compare_antisym.
  destruct (String.compare y x); simpl; congruence.
Qed.

(** ** The comparator is a transitive ordering *)

Lemma transitive_ordering_ext :
  forall A (f g : A -> A -> bool) l,
    (forall a b, f a b = g a b) ->
    transitive_ordering_on f l -> transitive_ordering_on g l.
Proof.
  intros A f g l E (Hi & Ht & Hn). repeat split.
  - intros x Hx. rewrite <- E. auto.
  - intros x y z Hx Hy Hz H1 H2.
    rewrite <- E in H1, H2 |- *. apply (Ht x y z); assumption.
  - intros x y z Hx Hy Hz H1 H2.
    rewrite <- E in H1, H2 |- *. apply (Hn x y z); assumption.
Qed.

Lemma ordering_by_key :
  forall K (ltk : K -> K -> bool) (ok : K -> Prop)
         (key : ProcessInfo -> K) (asc : bool) l,
    (forall x, ltk x x = false) ->
    (forall x y z, ok x -> ok y -> ok z ->
       ltk x y = true -> ltk y z = true -> ltk x z = true) ->
    (forall x y z, ok x -> ok y -> ok z ->
       ltk x y = false -> ltk y z = false -> ltk x z = false) ->
    Forall (fun p => ok (key p)) l ->
    transitive_ordering_on
      (fun a b => if asc then ltk (key a) (key b) else ltk (key b) (key a)) l.
Proof.
  intros K ltk ok key asc l Hi Ht Hn Hok.
  rewrite Forall_forall in Hok.
  destruct asc; repeat split; intros; eauto.
Qed.

Lemma less_transitive_ordering :
  forall c asc ps,
    nan_free c ps ->
    transitive_ordering_on (less (criterion_name c) asc) ps.
Proof.
  intros c asc ps Hnan. unfold nan_free in Hnan.
  destruct c.
  - apply transitive_ordering_ext with
      (f := fun a b => if asc then SFltb (CPUPerc a) (CPUPerc b)
                       else SFltb (CPUPerc b) (CPUPerc a)).
    { intros a b. now destruct asc. }
    apply ordering_by_key with (ok := fun x => Go.is_nan x = false);
      [exact SFltb_irrefl | exact SFltb_trans | exact SFltb_negtrans
      | exact Hnan].
  - apply transitive_ordering_ext with
      (f := fun a b => if asc then SFltb (MemPerc a) (MemPerc b)
                       else SFltb (MemPerc b) (MemPerc a)).
    { intros a b. now destruct asc. }
    apply ordering_by_key with (ok := fun x => Go.is_nan x = false);
      [exact SFltb_irrefl | exact SFltb_trans | exact SFltb_negtrans
      | exact Hnan].
  - apply transitive_ordering_ext with
      (f := fun a b => if asc then (PID a <? PID b)%Z
                       else (PID b <? PID a)%Z).
    { intros a b. destruct asc; [reflexivity|].
      unfold less. simpl. now rewrite Z.gtb_ltb. }
    apply ordering_by_key with (ok := fun _ => True); intros; try lia.
    now apply Forall_forall.
  - apply transitive_ordering_ext with
      (f := fun a b => if asc then String.ltb (Name a) (Name b)
                       else String.ltb (Name b) (Name a)).
    { intros a b. now destruct asc. }
    apply ordering_by_key with (ok := fun _ => True);
      [ exact string_ltb_irrefl
      | intros x y z _ _ _; apply string_ltb_trans
      | intros x y z _ _ _; apply string_ltb_negtrans
      | now apply Forall_forall ].
Qed.

(** Where the comparator does not put [b] before [a], the keys of [a] and
    [b] are in order. *)
Lemma less_false_key_ordered :
  forall c asc a b,
    not_nan_key c a -> not_nan_key c b ->
    less (criterion_name c) asc b a = false -> key_ordered c asc a b.
Proof.
  intros c asc a b Ha Hb H.
  destruct c, asc; unfold less in H; simpl in H; simpl in Ha, Hb;
    unfold key_ordered, Go.fle, Go.fge, Go.sle, Go.sge;
    unfold Go.flt, Go.fgt, Go.slt, Go.sgt in H;
    auto using SFltb_false_SFleb, string_ltb_false_leb; try lia.
Qed.

(** ** Slices of strings *)

Lemma substring_prefix :
  forall n s, exists rest, s = (substring 0 n s ++ rest)%string.
Proof.
  induction n as [|n IH]; intros s.
  - exists s. now destruct s.
  - destruct s as [|c s]; simpl.
    + now exists "".
    + destruct (IH s) as [rest E]. exists rest. now rewrite <- E.
Qed.

Lemma substring_length :
  forall n s,
    (n <= String.length s)%nat -> String.length (substring 0 n s) = n.
Proof.
  induction n as [|n IH]; intros s Hn.
  - now destruct s.
  - destruct s as [|c s]; simpl in *; [lia|].
    rewrite IH; lia.
Qed.

Lemma slice_to_first_bytes :
  forall n s, (n <? Go.len s)%nat = true -> first_bytes n s (Go.slice_to n s).
Proof.
  intros n s H. apply Nat.ltb_lt in H. unfold Go.len in H. split.
  - apply substring_length. lia.
  - apply substring_prefix.
Qed.

(** ** Properties of the specification *)

Lemma deriveRows_retained :
  forall ps by_ asc, deriveRows ps by_ asc = map mkRow (retained ps by_ asc).
Proof.
  intros. unfold deriveRows, retained.
  rewrite rows_loop_firstn by (simpl; lia). reflexivity.
Qed.

Lemma Update_stats_rows :
  forall s m,
    rows (table (fst (Update (statsMsg s) m)))
    = deriveRows (processInfo s) (sortBy m) (ascending m).
Proof. reflexivity. Qed.

(** C1. Row count: after a Snapshot sampled from any host is handled, under
    any sort directive, the table holds [min 50 n] rows, [n] being the
    number of processes of the Snapshot that have a name. *)
Theorem row_count :
  forall (h : Host) (m : model),
    let S := updateStats h in
    List.length (rows (table (fst (Update (statsMsg S) m))))
    = Nat.min 50 (List.length (filter has_name (processes S))).
Proof.
  intros h m S. rewrite Update_stats_rows, deriveRows_retained.
  rewrite length_map. unfold retained.
  rewrite length_firstn.
  rewrite <- (Permutation_length (sort_Slice_permutes _ _)).
  f_equal. rewrite <- named_length.
  subst S. unfold updateStats.
  destruct (process_Processes h) as [ps|]; simpl.
  - now rewrite getProcessInfo_named, length_map.
  - destruct (mem_VirtualMemory h), (cpu_Percent h), (load_Avg h),
      (host_Info h); reflexivity.
Qed.

(** C2, amended. Sort order: when no key of the active criterion is a NaN
    (a condition on the cpu and memory percentages only), the rows shown
    after a Snapshot is handled are built from a list of process records in
    which every two neighbours are in the order of the criterion and the
    direction: [<=] on the key when ascending, [>=] when descending. *)
Theorem sorted_rows :
  forall (c : Criterion) (asc : bool) (S : systemStats) (m : model),
    sortBy m = criterion_name c ->
    ascending m = asc ->
    nan_free c (processInfo S) ->
    let kept := retained (processInfo S) (criterion_name c) asc in
    rows (table (fst (Update (statsMsg S) m))) = map mkRow kept /\
    adjacent (key_ordered c asc) kept.
Proof.
  intros c asc S m Hby Hasc Hnan kept. split.
  - rewrite Update_stats_rows, Hby, Hasc. apply deriveRows_retained.
  - subst kept. unfold retained. apply adjacent_firstn.
    pose proof (sort_Slice_permutes (less (criterion_name c) asc)
                  (processInfo S)) as Hperm.
    pose proof (sort_Slice_sorts _ _
                  (less_transitive_ordering c asc _ Hnan)) as Hsorted.
    unfold ascending_for in Hsorted.
    revert Hsorted. apply adjacent_weaken. intros a b Ha Hb Hab.
    unfold nan_free in Hnan. rewrite Forall_forall in Hnan.
    apply less_false_key_ordered; trivial; apply Hnan.
    + apply (Permutation_in _ (Permutation_sym Hperm)). exact Ha.
    + apply (Permutation_in _ (Permutation_sym Hperm)). exact Hb.
Qed.

(** C3. Toggle law: a sort key sets the criterion it stands for and flips
    the direction, whatever the criterion was before; pressed a second time
    it leaves the criterion and brings the direction back. *)
Theorem toggle_law :
  forall (m : model) (x : Criterion),
    let m1 := fst (Update (KeyMsg (sort_key x)) m) in
    let m2 := fst (Update (KeyMsg (sort_key x)) m1) in
    sortBy m1 = criterion_name x /\
    ascending m1 = negb (ascending m) /\
    sortBy m2 = criterion_name x /\
    ascending m2 = ascending m /\
    stats m2 = stats m.
Proof.
  intros m x. destruct x; simpl; rewrite negb_involutive; auto.
Qed.

(** A sort key changes the sort directive and nothing else: the rows of the
    table are the ones that were there, and no command is returned. *)
Lemma sort_key_keeps_rows :
  forall (m : model) (x : Criterion),
    rows (table (fst (Update (KeyMsg (sort_key x)) m))) = rows (table m) /\
    stats (fst (Update (KeyMsg (sort_key x)) m)) = stats m /\
    snd (Update (KeyMsg (sort_key x)) m) = cmdNil.
Proof. intros m x. destruct x; simpl; auto. Qed.

(** C5, amended. Truncation of names, with lengths in bytes: the command
    cell of a row is the name of its process record when that has at most
    28 bytes, and otherwise the first 28 bytes of the name followed by two
    dots. *)
Theorem name_truncation :
  forall (ps : list ProcessInfo) (by_ : string) (asc : bool),
    Forall2
      (fun p r =>
         let command := nth 5 r "" in
         if (28 <? Go.len (Name p))%nat
         then exists pre, first_bytes 28 (Name p) pre /\
                          command = (pre ++ "..")%string
         else command = Name p)
      (retained ps by_ asc) (deriveRows ps by_ asc).
Proof.
  intros ps by_ asc. rewrite deriveRows_retained.
  induction (retained ps by_ asc) as [|p l IH]; simpl; constructor; auto.
  cbv zeta. change (nth 5 (mkRow p) "") with (command_of p).
  unfold command_of.
  destruct (28 <? Go.len (Name p))%nat eqn:H; [|reflexivity].
  exists (Go.slice_to 28 (Name p)). split; [|reflexivity].
  now apply slice_to_first_bytes.
Qed.

(** C6, amended. Truncation of user names, with lengths in bytes: in the
    process records a sampling pass stores, the user of a process is its
    user name when that has at most 8 bytes, and the first 8 bytes of it
    otherwise. *)
Theorem user_truncation :
  forall (h : Host),
    Forall2
      (fun p info =>
         if (8 <? Go.len (proc_Username p))%nat
         then first_bytes 8 (proc_Username p) (User info)
         else User info = proc_Username p)
      (named (processes (updateStats h))) (processInfo (updateStats h)).
Proof.
  intros h.
  assert (E : processInfo (updateStats h)
              = map ingest (named (processes (updateStats h)))).
  { unfold updateStats. destruct (process_Processes h) as [ps|]; simpl.
    - apply getProcessInfo_named.
    - destruct (mem_VirtualMemory h), (cpu_Percent h), (load_Avg h),
        (host_Info h); reflexivity. }
  rewrite E. clear E.
  induction (named (processes (updateStats h))) as [|p l IH]; simpl;
    constructor; auto.
  unfold ingest. simpl.
  destruct (8 <? Go.len (proc_Username p))%nat eqn:H; simpl; [|reflexivity].
  now apply slice_to_first_bytes.
Qed.

(** C7. Resize: a window-size message changes the width and the height
    handed to the table, to the new width less 4 and the new height less
    12, and nothing else: the Snapshot, the sort directive and the rows are
    the ones before the message. *)
Theorem resize_frame :
  forall (m : model) (w h : Z),
    let m' := fst (Update (WindowSizeMsg w h) m) in
    stats m' = stats m /\
    sortBy m' = sortBy m /\
    ascending m' = ascending m /\
    rows (table m') = rows (table m) /\
    cols (table m') = cols (table m) /\
    lastUpdate m' = lastUpdate m /\
    err m' = err m /\
    width (table m') = Go.wrap64 (w - 4) /\
    height (table m') = Go.wrap64 (h - 12).
Proof. intros m w h. simpl. repeat split. Qed.

(** C8. Determinism: the rows shown after a Snapshot is handled are a
    function of the process records of the Snapshot and of the sort
    directive.  Two runs that agree on these show the same rows, whatever
    else their states hold; [sort.Slice] is taken as the function it is,
    its result fixed by the slice and the comparator. *)
Theorem rows_deterministic :
  forall (S1 S2 : systemStats) (m1 m2 : model),
    processInfo S1 = processInfo S2 ->
    sortBy m1 = sortBy m2 ->
    ascending m1 = ascending m2 ->
    rows (table (fst (Update (statsMsg S1) m1)))
    = rows (table (fst (Update (statsMsg S2) m2))) /\
    rows (table (fst (Update (statsMsg S1) m1)))
    = deriveRows (processInfo S1) (sortBy m1) (ascending m1).
Proof.
  intros S1 S2 m1 m2 HS Hby Hasc.
  rewrite !Update_stats_rows, HS, Hby, Hasc. split; reflexivity.
Qed.

Lemma cpu_loop_cons :
  forall n i usage rest b,
    cpu_loop n i (usage :: rest) b
    = let b := if (0 <? i)%nat then b ++ [Text " "] else b in
      let b := b ++ [Text (Go.Sprintf_1f usage ++ "%")] in
      if (7 <=? i)%nat then
        if (8 <? n)%nat
        then b ++ [Text (" (+" ++ Go.Itoa (Z.of_nat n - 8) ++ " more)")]
        else b
      else cpu_loop n (S i) rest b.
Proof. reflexivity. Qed.

Lemma join_blank_cons :
  forall x y l,
    join_blank (x :: y :: l) = Text x :: Text " " :: join_blank (y :: l).
Proof. reflexivity. Qed.

Lemma cpu_loop_spec :
  forall rest usage i n b,
    n = (i + S (List.length rest))%nat ->
    (i <= 7)%nat ->
    cpu_loop n i (usage :: rest) b
    = b ++ (if (0 <? i)%nat then [Text " "] else [])
        ++ join_blank (map (fun u => (Go.Sprintf_1f u ++ "%")%string)
                           (firstn (8 - i) (usage :: rest)))
        ++ (if (8 <? n)%nat
            then [Text (" (+" ++ Go.Itoa (Z.of_nat n - 8) ++ " more)")]
            else []).
Proof.
  induction rest as [|u2 rest IH]; intros usage i n b Hn Hi;
    rewrite cpu_loop_cons; cbv zeta.
  - replace (8 - i)%nat with (S (7 - i)) by lia.
    replace (8 <? n)%nat with false
      by (symmetry; apply Nat.ltb_ge; simpl in Hn; lia).
    rewrite firstn_cons, firstn_nil. cbn [map join_blank cpu_loop].
    destruct (7 <=? i)%nat, (0 <? i)%nat;
      now rewrite ?app_nil_r, <- ?app_assoc.
  - destruct (Nat.leb_spec 7 i) as [H7|H7].
    + replace (8 - i)%nat with 1%nat by lia.
      rewrite firstn_cons, firstn_O. cbn [map join_blank].
      destruct (0 <? i)%nat, (8 <? n)%nat;
        now rewrite ?app_nil_r, <- ?app_assoc.
    + rewrite IH by (simpl in *; lia).
      replace (8 - i)%nat with (S (S (6 - i))) by lia.
      replace (8 - S i)%nat with (S (6 - i)) by lia.
      rewrite !firstn_cons, !map_cons, join_blank_cons.
      change (0 <? S i)%nat with true. cbv iota.
      generalize (join_blank
                    ((Go.Sprintf_1f u2 ++ "%")%string
                     :: map (fun u => (Go.Sprintf_1f u ++ "%")%string)
                            (firstn (6 - i) rest))).
      intros J.
      destruct (0 <? i)%nat; cbn [app]; now rewrite <- ?app_assoc.
Qed.

(** C9. The CPU line: [View] writes nothing for an empty list of cores, and
    otherwise the label, the first eight percentages, the number of cores
    beyond eight when there are any, and a line break. *)
Theorem cpu_line :
  forall (s : systemStats) (b : list Chunk),
    view_cpu s b = b ++ cpu_line_spec (cpuPercent s).
Proof.
  intros s b. unfold view_cpu, cpu_line_spec.
  destruct (cpuPercent s) as [|usage rest] eqn:E.
  - simpl. now rewrite app_nil_r.
  - change (0 <? List.length (usage :: rest))%nat with true. cbv iota.
    rewrite cpu_loop_spec by (simpl; lia).
    change (8 - 0)%nat with 8%nat. simpl (0 <? 0)%nat. cbv iota.
    now rewrite !app_nil_l, <- !app_assoc.
Qed.

Lemma Update_sortBy_cases :
  forall msg m,
    sortBy (fst (Update msg m)) = sortBy m \/
    exists c, sortBy (fst (Update msg m)) = criterion_name c.
Proof.
  intros [key|t|s|w h|] m; simpl; auto.
  destruct (String.eqb key "q" || String.eqb key "ctrl+c"); auto.
  destruct (String.eqb key "c"); [right; now exists cpu|].
  destruct (String.eqb key "m"); [right; now exists memory|].
  destruct (String.eqb key "p"); [right; now exists pid|].
  destruct (String.eqb key "n"); [right; now exists name|].
  auto.
Qed.

Lemma reachable_criterion :
  forall m, reachable m -> exists c, sortBy m = criterion_name c.
Proof.
  induction 1 as [|msg m Hm [c IH]].
  - now exists cpu.
  - destruct (Update_sortBy_cases msg m) as [E|[c' E]].
    + exists c. congruence.
    + now exists c'.
Qed.

(** C10. The sort criterion: the loop starts with criterion cpu,
    descending.  In every state it can reach the criterion is one of cpu,
    memory, pid and name, so the comparator never takes the branch after
    its switch, and a key that is neither a sort key nor a quit key leaves
    the criterion and the direction as they are. *)
Theorem criterion_invariant :
  forall (m : model),
    reachable m ->
    (sortBy initialModel = "cpu" /\ ascending initialModel = false) /\
    (exists c, sortBy m = criterion_name c) /\
    less_branch (sortBy m) <> FallThrough /\
    (forall key,
        ~ In key ["q"; "ctrl+c"; "c"; "m"; "p"; "n"] ->
        sortBy (fst (Update (KeyMsg key) m)) = sortBy m /\
        ascending (fst (Update (KeyMsg key) m)) = ascending m).
Proof.
  intros m Hm. split; [split; reflexivity|].
  destruct (reachable_criterion m Hm) as [c Hc].
  split; [now exists c|]. split.
  - rewrite Hc. destruct c; discriminate.
  - intros key Hkey. simpl in Hkey.
    assert (Hq : String.eqb key "q" = false)
      by (apply String.eqb_neq; intros ->; tauto).
    assert (Hcc : String.eqb key "ctrl+c" = false)
      by (apply String.eqb_neq; intros ->; tauto).
    assert (H1 : String.eqb key "c" = false)
      by (apply String.eqb_neq; intros ->; tauto).
    assert (H2 : String.eqb key "m" = false)
      by (apply String.eqb_neq; intros ->; tauto).
    assert (H3 : String.eqb key "p" = false)
      by (apply String.eqb_neq; intros ->; tauto).
    assert (H4 : String.eqb key "n" = false)
      by (apply String.eqb_neq; intros ->; tauto).
    unfold Update. rewrite Hq, Hcc, H1, H2, H3, H4. simpl. auto.
Qed.

(** ** Further properties: ingestion *)

(** X1. Every record [getProcessInfo] stores has a name, and a user of at most
    eight bytes. *)
Theorem stored_records_wellformed :
  forall (ps : list (option Process)),
    Forall (fun info => Name info <> "" /\ (Go.len (User info) <= 8)%nat)
           (getProcessInfo ps).
Proof.
  intros ps. rewrite getProcessInfo_named.
  induction ps as [|[p|] rest IH]; simpl; auto.
  destruct (String.eqb (proc_Name p) "") eqn:Hname; auto.
  simpl. constructor; auto.
  apply String.eqb_neq in Hname. unfold ingest. simpl.
  destruct (Nat.ltb_spec 8 (Go.len (proc_Username p))) as [Hlong|Hshort];
    simpl; split; trivial.
  unfold Go.len, Go.slice_to. rewrite substring_length; unfold Go.len in *; lia.
Qed.

(** X2. The pid, name, percentages and status of a process are stored as the
    calls gave them, one record per named process, in the order of the
    slice. *)
Theorem ingestion_passes_fields :
  forall (ps : list (option Process)),
    Forall2
      (fun p info =>
         PID info = Pid p /\ Name info = proc_Name p /\
         CPUPerc info = proc_CPUPercent p /\
         MemPerc info = proc_MemoryPercent p /\
         Status info = proc_Status p)
      (named ps) (getProcessInfo ps).
Proof.
  intros ps. rewrite getProcessInfo_named.
  induction (named ps) as [|p l IH]; simpl; constructor; auto.
  unfold ingest. simpl.
  destruct (8 <? Go.len (proc_Username p))%nat; simpl; auto.
Qed.

(** X3. Ingestion goes through the slice piece by piece: the records of two
    slices put end to end are the records of the first followed by those of
    the second, and a [nil] handle or a process without a name adds
    nothing. *)
Theorem getProcessInfo_app :
  forall (ps1 ps2 : list (option Process)),
    getProcessInfo (ps1 ++ ps2) = getProcessInfo ps1 ++ getProcessInfo ps2 /\
    getProcessInfo (None :: ps2) = getProcessInfo ps2 /\
    (forall p, proc_Name p = "" ->
               getProcessInfo (Some p :: ps2) = getProcessInfo ps2).
Proof.
  intros ps1 ps2. rewrite !getProcessInfo_named. repeat split.
  - rewrite <- map_app. f_equal.
    induction ps1 as [|[p|] rest IH]; simpl; auto.
    destruct (String.eqb (proc_Name p) ""); simpl; now rewrite ?IH.
  - intros p Hp. rewrite !getProcessInfo_named. simpl.
    now rewrite Hp.
Qed.

(** ** Further properties: sampling *)

(** X4. Each field of a Snapshot comes from its own call: a call that fails
    leaves its field at the zero value and the other fields as the other
    calls give them. *)
Theorem updateStats_fields :
  forall (h : Host),
    uptime (updateStats h)
    = match host_Info h with
      | Some up => Go.wrap64 (Go.wrap64 up * second)
      | None => 0%Z
      end /\
    loadAvg (updateStats h) = load_Avg h /\
    cpuPercent (updateStats h)
    = match cpu_Percent h with Some c => c | None => [] end /\
    memStats (updateStats h) = mem_VirtualMemory h /\
    processes (updateStats h)
    = match process_Processes h with Some ps => ps | None => [] end /\
    processInfo (updateStats h) = getProcessInfo (processes (updateStats h)).
Proof.
  intros [up ld cp mm pr]. unfold updateStats. simpl.
  destruct up, ld, cp, mm, pr; simpl; repeat split; reflexivity.
Qed.

(** X5. For an uptime of the host below 2^63 nanoseconds (some 292 years) the
    stored uptime is that number of seconds in nanoseconds, without
    wrap-around; it is positive exactly when the host reports a positive
    uptime. *)
Theorem uptime_exact :
  forall (h : Host) (up : Z),
    host_Info h = Some up ->
    (0 <= up <= 9223372036)%Z ->
    uptime (updateStats h) = (up * 1000000000)%Z /\
    ((0 < uptime (updateStats h))%Z <-> (0 < up)%Z).
Proof.
  intros h up Hh Hup.
  assert (E : uptime (updateStats h) = Go.wrap64 (Go.wrap64 up * second)).
  { unfold updateStats. rewrite Hh.
    destruct (load_Avg h), (cpu_Percent h), (mem_VirtualMemory h),
      (process_Processes h); reflexivity. }
  assert (Hw : forall z, (- 2 ^ 63 <= z < 2 ^ 63)%Z -> Go.wrap64 z = z).
  { intros z Hz. unfold Go.wrap64.
    rewrite Z.mod_small by lia. lia. }
  rewrite E, (Hw up) by lia. unfold second.
  rewrite Hw by lia. split; lia.
Qed.

(** ** Further properties: the message handler *)

Lemma rows_loop_rows :
  forall ps, rows_loop ps [] = map mkRow (firstn 50 ps).
Proof. intros ps. now rewrite rows_loop_firstn by (simpl; lia). Qed.

(** What [Update] does with a key, by the branch of its switch. *)
Lemma Update_key_cases :
  forall key m,
    (In key ["q"; "ctrl+c"] /\ Update (KeyMsg key) m = (m, cmdQuit)) \/
    (exists x, key = sort_key x /\
               Update (KeyMsg key) m
               = forward (KeyMsg key) (set_sort (criterion_name x) m)) \/
    (~ In key ["q"; "ctrl+c"; "c"; "m"; "p"; "n"] /\
     Update (KeyMsg key) m = forward (KeyMsg key) m).
Proof.
  intros key m. unfold Update.
  destruct (String.eqb_spec key "q") as [->|Hq];
    [left; simpl; auto|].
  destruct (String.eqb_spec key "ctrl+c") as [->|Hcc];
    [left; simpl; auto|].
  cbn [orb]. right.
  destruct (String.eqb_spec key "c") as [->|H1]; [left; now exists cpu|].
  destruct (String.eqb_spec key "m") as [->|H2]; [left; now exists memory|].
  destruct (String.eqb_spec key "p") as [->|H3]; [left; now exists pid|].
  destruct (String.eqb_spec key "n") as [->|H4]; [left; now exists name|].
  right. split; [|reflexivity]. simpl. intuition congruence.
Qed.

(** X6. The commands: a sampling request goes out with the next tick on a tick
    message and on no other message; the loop is quit on the keys [q] and
    [ctrl+c] and on nothing else, and quitting leaves the state as it
    is. *)
Theorem commands_issued :
  forall (msg : Msg) (m : model),
    (snd (Update msg m) = cmdBatch cmdTick cmdUpdateStats
     <-> exists t, msg = tickMsg t) /\
    (snd (Update msg m) = cmdQuit
     <-> msg = KeyMsg "q" \/ msg = KeyMsg "ctrl+c") /\
    (snd (Update msg m) = cmdQuit -> fst (Update msg m) = m).
Proof.
  intros [key|t|s|w h|] m.
  - destruct (Update_key_cases key m)
      as [[Hk E]|[(x & Hk & E)|[Hk E]]]; rewrite E; simpl.
    + repeat split; auto; try discriminate.
      * intros [t Ht]. discriminate.
      * intros _. destruct Hk as [<-|[<-|[]]]; auto.
    + repeat split; try discriminate.
      * intros [t Ht]. discriminate.
      * intros [H|H]; inversion H; subst key; destruct x; discriminate.
    + repeat split; try discriminate.
      * intros [t Ht]. discriminate.
      * intros [H|H]; inversion H; subst key; simpl in Hk; tauto.
  - simpl. repeat split; try discriminate; eauto.
    intros [H|H]; discriminate.
  - simpl. repeat split; try discriminate.
    + intros [t Ht]. discriminate.
    + intros [H|H]; discriminate.
  - simpl. repeat split; try discriminate.
    + intros [t Ht]. discriminate.
    + intros [H|H]; discriminate.
  - simpl. repeat split; try discriminate.
    + intros [t Ht]. discriminate.
    + intros [H|H]; discriminate.
Qed.

(** X7. The sort directive is changed by the four sort keys and by no other
    message: not by a Snapshot, a tick, a resize or another key. *)
Theorem directive_changes_only_on_sort_keys :
  forall (msg : Msg) (m : model),
    (forall x, msg <> KeyMsg (sort_key x)) ->
    sortBy (fst (Update msg m)) = sortBy m /\
    ascending (fst (Update msg m)) = ascending m.
Proof.
  intros [key|t|s|w h|] m Hmsg; try (simpl; auto; fail).
  destruct (Update_key_cases key m)
    as [[Hk E]|[(x & Hk & E)|[Hk E]]]; rewrite E; simpl; auto.
  exfalso. apply (Hmsg x). now rewrite Hk.
Qed.

(** X8. The stored Snapshot and the rows of the table are changed by a
    Snapshot message and by no other message. *)
Theorem snapshot_changes_only_on_stats :
  forall (msg : Msg) (m : model),
    (forall S, msg <> statsMsg S) ->
    stats (fst (Update msg m)) = stats m /\
    rows (table (fst (Update msg m))) = rows (table m).
Proof.
  intros [key|t|s|w h|] m Hmsg; try (simpl; auto; fail).
  - destruct (Update_key_cases key m)
      as [[Hk E]|[(x & Hk & E)|[Hk E]]]; rewrite E; simpl; auto.
  - exfalso. now apply (Hmsg s).
Qed.

(** X9. The time of the last update is changed by a tick and by no other
    message. *)
Theorem lastUpdate_changes_only_on_tick :
  forall (msg : Msg) (m : model),
    (forall t, msg <> tickMsg t) ->
    lastUpdate (fst (Update msg m)) = lastUpdate m.
Proof.
  intros [key|t|s|w h|] m Hmsg; try (simpl; auto; fail).
  - destruct (Update_key_cases key m)
      as [[Hk E]|[(x & Hk & E)|[Hk E]]]; rewrite E; simpl; auto.
  - exfalso. now apply (Hmsg t).
Qed.

(** ** Further properties: invariants of the loop *)

(** X10. In every state the loop can reach, the rows of the table are the rows
    of the first fifty stored process records, in the stored order: the
    table and the stored Snapshot never drift apart. *)
Theorem reachable_rows_of_stored :
  forall (m : model),
    reachable m ->
    rows (table m) = map mkRow (firstn 50 (processInfo (stats m))).
Proof.
  induction 1 as [|msg m Hm IH]; [reflexivity|].
  destruct msg as [key|t|s|w h|]; try (simpl; exact IH).
  - destruct (Update_key_cases key m)
      as [[Hk E]|[(x & Hk & E)|[Hk E]]]; rewrite E; simpl; exact IH.
  - simpl. apply rows_loop_rows.
Qed.

(** X11. In every state the loop can reach, the table has the six columns it
    was created with, at most fifty rows, and a cell for each column in
    every row; the error field is never set. *)
Theorem reachable_table_shape :
  forall (m : model),
    reachable m ->
    cols (table m) = cols (table initialModel) /\
    (List.length (rows (table m)) <= 50)%nat /\
    Forall (fun r => List.length r = List.length (cols (table m)))
           (rows (table m)) /\
    err m = None.
Proof.
  induction 1 as [|msg m Hm (Hc & Hn & Hr & He)].
  - simpl. repeat split; [lia | constructor].
  - destruct msg as [key|t|s|w h|]; try (simpl; auto; fail).
    + destruct (Update_key_cases key m)
        as [[Hk E]|[(x & Hk & E)|[Hk E]]]; rewrite E; simpl; auto.
    + simpl. rewrite rows_loop_rows, Hc. repeat split; trivial.
      * rewrite length_map, length_firstn. lia.
      * apply Forall_forall. intros r Hin.
        apply in_map_iff in Hin. destruct Hin as (p & <- & _). reflexivity.
Qed.

(** X12. A resize and a message of another kind can be handled in either
    order: the two states reached agree on the stored Snapshot, the sort
    directive, the time of the last update and the error, and on the rows,
    the columns and the width and height handed to the table.  The cursor
    and the scroll offset of the widget are outside the model and outside
    the statement. *)
Theorem resize_commutes :
  forall (msg : Msg) (m : model) (w h : Z),
    (forall w' h', msg <> WindowSizeMsg w' h') ->
    let a := fst (Update msg (fst (Update (WindowSizeMsg w h) m))) in
    let b := fst (Update (WindowSizeMsg w h) (fst (Update msg m))) in
    stats a = stats b /\
    sortBy a = sortBy b /\
    ascending a = ascending b /\
    lastUpdate a = lastUpdate b /\
    err a = err b /\
    rows (table a) = rows (table b) /\
    cols (table a) = cols (table b) /\
    width (table a) = width (table b) /\
    height (table a) = height (table b).
Proof.
  intros msg m w h Hmsg a b.
  assert (E : a = b).
  { subst a b. destruct msg as [key|t|s|w' h'|]; try reflexivity.
    - unfold Update.
      destruct (String.eqb key "q" || String.eqb key "ctrl+c");
        [reflexivity|].
      destruct (String.eqb key "c"); [reflexivity|].
      destruct (String.eqb key "m"); [reflexivity|].
      destruct (String.eqb key "p"); [reflexivity|].
      destruct (String.eqb key "n"); reflexivity.
    - exfalso. now apply (Hmsg w' h'). }
  rewrite E. repeat split.
Qed.

(** X13. For a window size from 0 up to the largest [int], the table gets
    the width less 4 and the height less 12 as they are; for a window
    narrower than 4 or lower than 12 the value handed to the table is
    negative. *)
Theorem resize_in_range :
  forall (m : model) (w h : Z),
    (0 <= w < 2 ^ 63)%Z ->
    (0 <= h < 2 ^ 63)%Z ->
    width (table (fst (Update (WindowSizeMsg w h) m))) = (w - 4)%Z /\
    height (table (fst (Update (WindowSizeMsg w h) m))) = (h - 12)%Z /\
    ((w < 4)%Z ->
     (width (table (fst (Update (WindowSizeMsg w h) m))) < 0)%Z) /\
    ((h < 12)%Z ->
     (height (table (fst (Update (WindowSizeMsg w h) m))) < 0)%Z).
Proof.
  intros m w h Hw Hh. simpl.
  assert (Hwrap : forall z, (- 2 ^ 63 <= z < 2 ^ 63)%Z -> Go.wrap64 z = z).
  { intros z Hz. unfold Go.wrap64. rewrite Z.mod_small by lia. lia. }
  rewrite !Hwrap by lia. repeat split; lia.
Qed.

(** ** Further properties: the sort *)

Lemma SFltb_asym : forall x y, SFltb x y = true -> SFltb y x = false.
Proof.
  intros x y H.
  destruct (Go.is_nan x) eqn:Hx; [destruct x; discriminate|].
  destruct (Go.is_nan y) eqn:Hy;
    [destruct y; try discriminate; now destruct x|].
  apply (bool_false_iff _ _ (SFltb_rank y x Hy Hx)).
  apply SFltb_rank in H; trivial.
  intros H'. apply (lex_lt_irrefl (rank x)). eapply lex_lt_trans; eauto.
Qed.

Lemma string_ltb_asym :
  forall x y, String.ltb x y = true -> String.ltb y x = false.
Proof.
  unfold String.ltb. intros x y H. rewrite String.compare_antisym.
  destruct (String.compare x y); try discriminate. reflexivity.
Qed.

(** X14. The comparator is strict on all records, a NaN among the percentages
    or not, and whatever [sortBy] holds: no record is less than itself, and
    of two records at most one is less than the other. *)
Theorem less_strict :
  forall (by_ : string) (asc : bool) (a b : ProcessInfo),
    less by_ asc a a = false /\
    (less by_ asc a b = true -> less by_ asc b a = false).
Proof.
  intros by_ asc a b. unfold less.
  destruct (less_branch by_), asc;
    unfold Go.flt, Go.fgt, Go.slt, Go.sgt; split;
    auto using SFltb_irrefl, SFltb_asym, string_ltb_irrefl, string_ltb_asym;
    try lia.
Qed.

(** X15. The two directions mirror each other: [a] is less than [b] in one
    direction exactly when [b] is less than [a] in the other. *)
Theorem less_mirror :
  forall (by_ : string) (asc : bool) (a b : ProcessInfo),
    less by_ asc a b = less by_ (negb asc) b a.
Proof.
  intros by_ asc a b. unfold less.
  destruct (less_branch by_), asc; simpl;
    unfold Go.flt, Go.fgt, Go.slt, Go.sgt; trivial;
    now rewrite Z.gtb_ltb.
Qed.

(** X16. Handling a Snapshot replaces the stored one as a whole: every summary
    field is the one of the message, the process records are those of the
    message rearranged, and the sort directive stays. *)
Theorem snapshot_replaces :
  forall (S : systemStats) (m : model),
    let m' := fst (Update (statsMsg S) m) in
    uptime (stats m') = uptime S /\
    loadAvg (stats m') = loadAvg S /\
    cpuPercent (stats m') = cpuPercent S /\
    memStats (stats m') = memStats S /\
    processes (stats m') = processes S /\
    Permutation (processInfo S) (processInfo (stats m')) /\
    sortBy m' = sortBy m /\
    ascending m' = ascending m.
Proof.
  intros S m. simpl. repeat split. apply sort_Slice_permutes.
Qed.

(** X18. The rows come from the Snapshot: the process records split into those
    kept and those dropped, the rows are the rows of the kept ones, and
    none is dropped when there are at most fifty. *)
Theorem rows_from_snapshot :
  forall (S : systemStats) (m : model),
    exists kept dropped,
      Permutation (processInfo S) (kept ++ dropped) /\
      rows (table (fst (Update (statsMsg S) m))) = map mkRow kept /\
      ((List.length (processInfo S) <= 50)%nat -> dropped = []).
Proof.
  intros S m.
  pose proof (sort_Slice_permutes (less (sortBy m) (ascending m))
                (processInfo S)) as Hperm.
  exists (firstn 50 (sort_Slice (less (sortBy m) (ascending m))
                       (processInfo S))),
         (skipn 50 (sort_Slice (less (sortBy m) (ascending m))
                      (processInfo S))).
  split; [now rewrite firstn_skipn|]. split.
  - simpl. apply rows_loop_rows.
  - intros Hlen. apply skipn_all2.
    rewrite <- (Permutation_length Hperm). exact Hlen.
Qed.

Lemma adjacent_all_pairs :
  forall A (R : A -> A -> Prop) l,
    (forall a b c, In a l -> In b l -> In c l -> R a b -> R b c -> R a c) ->
    adjacent R l ->
    forall j i a b,
      (i < j)%nat -> nth_error l i = Some a -> nth_error l j = Some b ->
      R a b.
Proof.
  intros A R l Htrans Hadj.
  induction j as [|j IH]; intros i a b Hij Ha Hb; [lia|].
  destruct (Nat.eq_dec i j) as [->|Hne].
  - apply (Hadj j); assumption.
  - destruct (nth_error l j) as [c|] eqn:Hc.
    + assert (Hac : R a c) by (apply (IH i); trivial; lia).
      assert (Hcb : R c b) by (apply (Hadj j); assumption).
      apply (Htrans a c b); eauto using nth_error_In.
    + apply nth_error_None in Hc.
      assert (Hlt : (S j < List.length l)%nat)
        by (apply nth_error_Some; congruence).
      lia.
Qed.

(** The stored records after a Snapshot, all pairs in order. *)
Lemma stored_key_ordered :
  forall c asc ps,
    nan_free c ps ->
    forall i j a b,
      (i < j)%nat ->
      nth_error (sort_Slice (less (criterion_name c) asc) ps) i = Some a ->
      nth_error (sort_Slice (less (criterion_name c) asc) ps) j = Some b ->
      key_ordered c asc a b.
Proof.
  intros c asc ps Hnan i j a b Hij Ha Hb.
  pose proof (sort_Slice_permutes (less (criterion_name c) asc) ps) as Hperm.
  pose proof (less_transitive_ordering c asc ps Hnan) as Hord.
  pose proof (sort_Slice_sorts _ _ Hord) as Hsorted.
  assert (Hin : forall x,
             In x (sort_Slice (less (criterion_name c) asc) ps) -> In x ps).
  { intros x. apply Permutation_in. now apply Permutation_sym. }
  unfold nan_free in Hnan. rewrite Forall_forall in Hnan.
  apply less_false_key_ordered; eauto using nth_error_In.
  destruct Hord as (_ & _ & Hneg).
  revert Hij Ha Hb.
  apply (adjacent_all_pairs _
           (fun x y => less (criterion_name c) asc y x = false)
           (sort_Slice (less (criterion_name c) asc) ps)); trivial.
  intros x y z Hx Hy Hz Hxy Hyz. apply (Hneg z y x); auto.
Qed.

Lemma Update_stats_stored :
  forall s m,
    processInfo (stats (fst (Update (statsMsg s) m)))
    = sort_Slice (less (sortBy m) (ascending m)) (processInfo s).
Proof. reflexivity. Qed.

(** X19. The fifty rows shown are the top fifty: when no key of the criterion
    is a NaN, the records stored after a Snapshot are in the order of the
    sort directive, any two of them and not only neighbours, so every
    record with a row stands before every record without one. *)
Theorem top_fifty :
  forall (c : Criterion) (asc : bool) (S : systemStats) (m : model),
    sortBy m = criterion_name c ->
    ascending m = asc ->
    nan_free c (processInfo S) ->
    let m' := fst (Update (statsMsg S) m) in
    rows (table m') = map mkRow (firstn 50 (processInfo (stats m'))) /\
    (forall i j a b,
        (i < j)%nat ->
        nth_error (processInfo (stats m')) i = Some a ->
        nth_error (processInfo (stats m')) j = Some b ->
        key_ordered c asc a b) /\
    (forall a b,
        In a (firstn 50 (processInfo (stats m'))) ->
        In b (skipn 50 (processInfo (stats m'))) ->
        key_ordered c asc a b).
Proof.
  intros c asc S m Hby Hasc Hnan. cbv zeta.
  rewrite Update_stats_stored, Update_stats_rows, Hby, Hasc.
  split; [apply rows_loop_rows|].
  pose proof (stored_key_ordered c asc (processInfo S) Hnan) as Hall.
  split; [exact Hall|].
  intros a b Ha Hb.
  apply In_nth_error in Ha. destruct Ha as [i Ha].
  apply In_nth_error in Hb. destruct Hb as [j Hb].
  rewrite nth_error_firstn in Ha. rewrite nth_error_skipn in Hb.
  destruct (Nat.ltb_spec i 50) as [Hi|Hi]; [|discriminate].
  apply (Hall i (50 + j)%nat); trivial. lia.
Qed.


(** ** Further properties: the cells *)

Lemma append_length :
  forall s1 s2,
    String.length (s1 ++ s2) = (String.length s1 + String.length s2)%nat.
Proof. induction s1 as [|c s1 IH]; intros s2; simpl; auto. Qed.

(** X21. The cells cut to size fit their columns: in the row of a process as
    ingested, the user has at most 8 bytes, under the 10 of the USER
    column, and the command at most 30, the width of the COMMAND column. *)
Theorem cells_fit_columns :
  forall (p : Process),
    let row := mkRow (ingest p) in
    let columns := cols (table initialModel) in
    (Z.of_nat (Go.len (nth 1 row "")) <= 8)%Z /\
    (8 <= Width (nth 1 columns (mkColumn "" 0)))%Z /\
    (Z.of_nat (Go.len (nth 5 row ""))
     <= Width (nth 5 columns (mkColumn "" 0)))%Z.
Proof.
  intros p. cbv zeta.
  change (nth 1 (mkRow (ingest p)) "") with (User (ingest p)).
  change (nth 5 (mkRow (ingest p)) "") with (command_of (ingest p)).
  change (Width (nth 1 (cols (table initialModel)) (mkColumn "" 0)))
    with 10%Z.
  change (Width (nth 5 (cols (table initialModel)) (mkColumn "" 0)))
    with 30%Z.
  split; [|split; [lia|]].
  - unfold ingest. cbn [User].
    destruct (Nat.ltb_spec 8 (Go.len (proc_Username p))) as [Hlong|Hshort];
      cbn [User]; [|lia].
    unfold Go.len, Go.slice_to in *. rewrite substring_length; lia.
  - unfold command_of.
    destruct (Nat.ltb_spec 28 (Go.len (Name (ingest p)))) as [Hlong|Hshort];
      [|lia].
    unfold Go.len, Go.slice_to in *.
    rewrite append_length, substring_length by lia. simpl. lia.
Qed.

(** ** Further properties: the sort indicator *)

(** X22. In every state the loop can reach, the sort indicator of [View] is one
    of eight texts: a criterion out of cpu, memory, pid and name, and a
    direction. *)
Theorem sort_indicator_reachable :
  forall (m : model) (b : list Chunk),
    reachable m ->
    exists c,
      view_sort_indicator m b
      = b ++ [Text ("Sorted by: " ++ criterion_name c ++ " ("
                    ++ (if ascending m then "ascending" else "descending")
                    ++ ")" ++ newline ++ newline)].
Proof.
  intros m b Hm. destruct (reachable_criterion m Hm) as [c Hc].
  exists c. unfold view_sort_indicator, sort_indicator. rewrite Hc.
  do 2 f_equal. f_equal.
  destruct c, (ascending m); reflexivity.
Qed.

(** X17. The last Snapshot wins: of two Snapshots handled one after the
    other, the stored Snapshot, the sort directive and the rows, columns,
    width and height of the table are those reached by handling the second
    alone; nothing of the first is merged into them.  The cursor and the
    scroll offset of the widget are outside the model and outside the
    statement. *)
Theorem snapshot_overrides :
  forall (S1 S2 : systemStats) (m : model),
    let a := fst (Update (statsMsg S2) (fst (Update (statsMsg S1) m))) in
    let b := fst (Update (statsMsg S2) m) in
    stats a = stats b /\
    sortBy a = sortBy b /\
    ascending a = ascending b /\
    lastUpdate a = lastUpdate b /\
    rows (table a) = rows (table b) /\
    cols (table a) = cols (table b) /\
    width (table a) = width (table b) /\
    height (table a) = height (table b).
Proof.
  intros S1 S2 m a b. subst a b.
  rewrite !Update_stats_rows. repeat split.
Qed.

(** ** Further properties: the order by pid *)

Lemma ordered_pairs_of_nth :
  forall A (R : A -> A -> Prop) l,
    (forall i j a b,
        (i < j)%nat -> nth_error l i = Some a -> nth_error l j = Some b ->
        R a b) ->
    ForallOrdPairs R l.
Proof.
  induction l as [|x l IH]; intros H; constructor.
  - apply Forall_forall. intros y Hy.
    apply In_nth_error in Hy. destruct Hy as [k Hk].
    apply (H 0%nat (Datatypes.S k)); trivial. lia.
  - apply IH. intros i j a b Hij Ha Hb.
    apply (H (Datatypes.S i) (Datatypes.S j)); trivial. lia.
Qed.

Lemma ordered_pairs_snoc :
  forall A (R : A -> A -> Prop) l x,
    ForallOrdPairs R l -> Forall (fun y => R y x) l ->
    ForallOrdPairs R (l ++ [x]).
Proof.
  induction l as [|y l IH]; intros x Hl Hx; simpl.
  - repeat constructor.
  - inversion Hl; subst. inversion Hx; subst. constructor.
    + apply Forall_app. split; auto.
    + apply IH; assumption.
Qed.

Lemma ordered_pairs_rev :
  forall A (R : A -> A -> Prop) l,
    ForallOrdPairs R l -> ForallOrdPairs (fun x y => R y x) (rev l).
Proof.
  induction 1 as [|x l Hx Hl IH]; simpl; [constructor|].
  apply ordered_pairs_snoc; trivial.
  apply Forall_rev. exact Hx.
Qed.

Lemma ordered_pairs_weaken :
  forall A (R R' : A -> A -> Prop) l,
    (forall a b, R a b -> R' a b) ->
    ForallOrdPairs R l -> ForallOrdPairs R' l.
Proof.
  induction 2 as [|x l Hx Hl IH]; constructor; trivial.
  revert Hx. apply Forall_impl. auto.
Qed.

Lemma NoDup_map_injective :
  forall A B (f : A -> B) l a b,
    NoDup (map f l) -> In a l -> In b l -> f a = f b -> a = b.
Proof.
  induction l as [|x l IH]; intros a b Hnd Ha Hb E; [contradiction|].
  simpl in Hnd. inversion Hnd as [|y l' Hnotin Hnd']; subst.
  destruct Ha as [->|Ha], Hb as [->|Hb]; trivial.
  - exfalso. apply Hnotin. rewrite E. now apply in_map.
  - exfalso. apply Hnotin. rewrite <- E. now apply in_map.
  - now apply IH.
Qed.

(** Two arrangements of the same records, both ascending by pid and no pid
    occurring twice, are the same list. *)
Lemma ascending_by_pid_unique :
  forall l1 l2 : list ProcessInfo,
    Permutation l1 l2 ->
    (forall a b, In a l1 -> In b l1 -> PID a = PID b -> a = b) ->
    ForallOrdPairs (fun a b => (PID a <= PID b)%Z) l1 ->
    ForallOrdPairs (fun a b => (PID a <= PID b)%Z) l2 ->
    l1 = l2.
Proof.
  induction l1 as [|a l1 IH]; intros l2 Hperm Hinj H1 H2.
  - apply Permutation_nil in Hperm. now subst.
  - destruct l2 as [|b l2];
      [apply Permutation_sym, Permutation_nil in Hperm; discriminate|].
    inversion H1 as [|? ? Ha H1']; subst.
    inversion H2 as [|? ? Hb H2']; subst.
    rewrite Forall_forall in Ha, Hb.
    assert (Hba : In b (a :: l1))
      by (apply (Permutation_in _ (Permutation_sym Hperm)); now left).
    assert (Hab : In a (b :: l2))
      by (apply (Permutation_in _ Hperm); now left).
    assert (E : a = b).
    { apply Hinj; [now left | exact Hba |].
      assert (PID a <= PID b)%Z
        by (destruct Hba as [->|Hba]; [lia | now apply Ha]).
      assert (PID b <= PID a)%Z
        by (destruct Hab as [->|Hab]; [lia | now apply Hb]).
      lia. }
    subst b. f_equal. apply IH; trivial.
    + eapply Permutation_cons_inv; eauto.
    + intros x y Hx Hy. apply Hinj; now right.
Qed.

Lemma stored_by_pid :
  forall ps,
    ForallOrdPairs (fun a b => (PID a <= PID b)%Z)
      (sort_Slice (less "pid" true) ps) /\
    ForallOrdPairs (fun a b => (PID a <= PID b)%Z)
      (rev (sort_Slice (less "pid" false) ps)).
Proof.
  intros ps.
  assert (Hnan : nan_free pid ps) by (apply Forall_forall; now intros).
  split.
  - apply ordered_pairs_of_nth.
    exact (stored_key_ordered pid true ps Hnan).
  - apply ordered_pairs_weaken
      with (R := fun x y => (PID y >= PID x)%Z); [intros; lia|].
    apply (ordered_pairs_rev _ (fun a b => (PID a >= PID b)%Z)).
    apply ordered_pairs_of_nth.
    exact (stored_key_ordered pid false ps Hnan).
Qed.

(** X23. By pid, the two directions show reversed lists: with no pid twice in a
    Snapshot, the records stored under pid ascending are those stored under
    pid descending in reverse, and so are the rows when there are at most
    fifty. *)
Theorem pid_directions_reverse :
  forall (S : systemStats) (m1 m2 : model),
    sortBy m1 = "pid" -> ascending m1 = true ->
    sortBy m2 = "pid" -> ascending m2 = false ->
    NoDup (map PID (processInfo S)) ->
    processInfo (stats (fst (Update (statsMsg S) m1)))
    = rev (processInfo (stats (fst (Update (statsMsg S) m2)))) /\
    ((List.length (processInfo S) <= 50)%nat ->
     rows (table (fst (Update (statsMsg S) m1)))
     = rev (rows (table (fst (Update (statsMsg S) m2))))).
Proof.
  intros S m1 m2 Hby1 Hasc1 Hby2 Hasc2 Hnd.
  rewrite !Update_stats_stored, !Update_stats_rows.
  rewrite Hby1, Hasc1, Hby2, Hasc2.
  pose proof (sort_Slice_permutes (less "pid" true) (processInfo S)) as Hp1.
  pose proof (sort_Slice_permutes (less "pid" false) (processInfo S)) as Hp2.
  destruct (stored_by_pid (processInfo S)) as [Ho1 Ho2].
  assert (E : sort_Slice (less "pid" true) (processInfo S)
              = rev (sort_Slice (less "pid" false) (processInfo S))).
  { apply ascending_by_pid_unique; trivial.
    - apply perm_trans with (processInfo S);
        [now apply Permutation_sym|].
      apply perm_trans with (sort_Slice (less "pid" false) (processInfo S));
        [exact Hp2 | apply Permutation_rev].
    - intros a b Ha Hb.
      apply (NoDup_map_injective _ _ PID (processInfo S)); trivial.
      + exact (Permutation_in _ (Permutation_sym Hp1) Ha).
      + exact (Permutation_in _ (Permutation_sym Hp1) Hb). }
  split; [exact E|].
  intros Hlen. unfold deriveRows. rewrite !rows_loop_rows.
  rewrite !firstn_all2
    by (rewrite <- ?(Permutation_length Hp1), <- ?(Permutation_length Hp2);
        exact Hlen).
  now rewrite E, map_rev.
Qed.

(** X24. By pid, the order shown does not depend on the order in which the
    processes were sampled: two Snapshots holding the same records, no pid
    twice, give the same stored list and the same rows. *)
Theorem pid_order_canonical :
  forall (S1 S2 : systemStats) (m : model),
    sortBy m = "pid" ->
    Permutation (processInfo S1) (processInfo S2) ->
    NoDup (map PID (processInfo S1)) ->
    processInfo (stats (fst (Update (statsMsg S1) m)))
    = processInfo (stats (fst (Update (statsMsg S2) m))) /\
    rows (table (fst (Update (statsMsg S1) m)))
    = rows (table (fst (Update (statsMsg S2) m))).
Proof.
  intros S1 S2 m Hby Hperm Hnd.
  rewrite !Update_stats_stored, !Update_stats_rows. rewrite Hby.
  unfold deriveRows.
  pose proof (sort_Slice_permutes (less "pid" (ascending m))
                (processInfo S1)) as Hp1.
  pose proof (sort_Slice_permutes (less "pid" (ascending m))
                (processInfo S2)) as Hp2.
  assert (Hinj : forall l a b,
             Permutation (processInfo S1) l ->
             In a l -> In b l -> PID a = PID b -> a = b).
  { intros l a b Hl Ha Hb.
    apply (NoDup_map_injective _ _ PID (processInfo S1)); trivial.
    - exact (Permutation_in _ (Permutation_sym Hl) Ha).
    - exact (Permutation_in _ (Permutation_sym Hl) Hb). }
  assert (E : sort_Slice (less "pid" (ascending m)) (processInfo S1)
              = sort_Slice (less "pid" (ascending m)) (processInfo S2)).
  { destruct (ascending m).
    - destruct (stored_by_pid (processInfo S1)) as [Ho1 _].
      destruct (stored_by_pid (processInfo S2)) as [Ho2 _].
      apply ascending_by_pid_unique; trivial.
      + apply perm_trans with (processInfo S1);
          [now apply Permutation_sym|].
        now apply perm_trans with (processInfo S2).
      + intros a b. exact (Hinj _ a b Hp1).
    - destruct (stored_by_pid (processInfo S1)) as [_ Ho1].
      destruct (stored_by_pid (processInfo S2)) as [_ Ho2].
      rewrite <- (rev_involutive (sort_Slice _ (processInfo S1))).
      rewrite <- (rev_involutive (sort_Slice _ (processInfo S2))).
      f_equal. apply ascending_by_pid_unique; trivial.
      + apply perm_trans
          with (sort_Slice (less "pid" false) (processInfo S1));
          [apply Permutation_sym, Permutation_rev|].
        apply perm_trans with (processInfo S1);
          [now apply Permutation_sym|].
        apply perm_trans with (processInfo S2); trivial.
        apply perm_trans
          with (sort_Slice (less "pid" false) (processInfo S2));
          [exact Hp2 | apply Permutation_rev].
      + intros a b. apply (Hinj _ a b).
        apply perm_trans
          with (sort_Slice (less "pid" false) (processInfo S1));
          [exact Hp1 | apply Permutation_rev]. }
  now rewrite E.
Qed.

End Dashboard.

(** ** The insertion sort meets the contract of [sort.Slice] *)

Lemma insert_back_permutes :
  forall A (lessf : A -> A -> bool) x front,
    Permutation (x :: front) (insert_back lessf x front).
Proof.
  induction front as [|y front IH]; simpl; auto.
  destruct (lessf x y); auto.
  apply perm_trans with (y :: x :: front); [apply perm_swap|].
  now apply perm_skip.
Qed.

Lemma insertionSort_permutes :
  forall A (lessf : A -> A -> bool) l, Permutation l (insertionSort lessf l).
Proof.
  intros A lessf l. unfold insertionSort.
  rewrite <- Permutation_rev.
  enough (H : forall front,
             Permutation (l ++ front)
               (fold_left (fun f x => insert_back lessf x f) l front)).
  { specialize (H []). now rewrite app_nil_r in H. }
  induction l as [|x l IH]; intros front; simpl; auto.
  rewrite <- IH. rewrite <- insert_back_permutes.
  apply Permutation_middle.
Qed.

Lemma insert_back_adjacent :
  forall A (lessf : A -> A -> bool) x front,
    (forall a, In a front -> lessf x a = true -> lessf a x = false) ->
    adjacent (fun a b => lessf a b = false) front ->
    adjacent (fun a b => lessf a b = false) (insert_back lessf x front).
Proof.
  induction front as [|y front IH]; intros Hasym Hadj.
  - apply adjacent_one.
  - simpl. destruct (lessf x y) eqn:Hxy.
    + assert (Hyx : lessf y x = false) by (apply Hasym; simpl; auto).
      assert (IH' : adjacent (fun a b => lessf a b = false)
                      (insert_back lessf x front)).
      { apply IH; [|eapply adjacent_tail; eauto].
        intros a Ha. apply Hasym. simpl. auto. }
      destruct front as [|z front]; simpl in *.
      * apply adjacent_cons; trivial.
      * destruct (lessf x z).
        -- apply adjacent_cons; trivial.
           exact (adjacent_head _ _ _ _ _ Hadj).
        -- apply adjacent_cons; trivial.
    + apply adjacent_cons; trivial.
Qed.

Lemma transitive_ordering_asym :
  forall A (lessf : A -> A -> bool) l,
    transitive_ordering_on lessf l ->
    forall a b, In a l -> In b l -> lessf a b = true -> lessf b a = false.
Proof.
  intros A lessf l (Hi & Ht & _) a b Ha Hb Hab.
  destruct (lessf b a) eqn:Hba; trivial.
  rewrite <- (Hi a Ha). symmetry. apply (Ht a b a); assumption.
Qed.

Lemma insertionSort_sorts :
  forall A (lessf : A -> A -> bool) l,
    transitive_ordering_on lessf l ->
    ascending_for lessf (insertionSort lessf l).
Proof.
  intros A lessf l Hord. unfold ascending_for, insertionSort.
  apply (adjacent_rev A (fun a b => lessf a b = false)).
  pose proof (transitive_ordering_asym A lessf l Hord) as Hasym.
  enough (H : forall l' front,
             (forall a, In a (l' ++ front) -> In a l) ->
             adjacent (fun a b => lessf a b = false) front ->
             adjacent (fun a b => lessf a b = false)
               (fold_left (fun f x => insert_back lessf x f) l' front)).
  { apply H; [|apply adjacent_nil].
    intros a. now rewrite app_nil_r. }
  induction l' as [|x l' IH]; intros front Hin Hadj; simpl; trivial.
  apply IH.
  - intros a Ha. apply Hin. apply in_app_or in Ha.
    destruct Ha as [Ha|Ha].
    + apply in_or_app. left. now right.
    + apply (Permutation_in _
               (Permutation_sym (insert_back_permutes A lessf x front)))
        in Ha.
      destruct Ha as [<-|Ha]; apply in_or_app; [left; now left|now right].
  - apply insert_back_adjacent; trivial.
    intros a Ha. apply Hasym; apply Hin; apply in_or_app;
      [left; now left | now right].
Qed.

(** ** The theorems at the sample data *)

Lemma row_count_witness :
  (forall lessf (l : list ProcessInfo),
      Permutation l (insertionSort lessf l)) /\
  List.length
    (rows (table (fst (Update insertionSort
                         (statsMsg (updateStats sample_host)) initialModel))))
  = Nat.min 50
      (List.length (filter has_name (processes (updateStats sample_host)))).
Proof.
  split.
  - intros lessf l. apply insertionSort_permutes.
  - apply (row_count insertionSort).
    intros lessf l. apply insertionSort_permutes.
Defined.

Lemma sorted_rows_witness :
  (forall lessf (l : list ProcessInfo),
      Permutation l (insertionSort lessf l)) /\
  (forall lessf (l : list ProcessInfo),
      transitive_ordering_on lessf l ->
      ascending_for lessf (insertionSort lessf l)) /\
  sortBy initialModel = criterion_name cpu /\
  ascending initialModel = false /\
  nan_free cpu (processInfo (updateStats sample_host)) /\
  rows (table (fst (Update insertionSort
                      (statsMsg (updateStats sample_host)) initialModel)))
  = map mkRow (retained insertionSort
                 (processInfo (updateStats sample_host))
                 (criterion_name cpu) false) /\
  adjacent (key_ordered cpu false)
    (retained insertionSort (processInfo (updateStats sample_host))
       (criterion_name cpu) false).
Proof.
  assert (Hnan : nan_free cpu (processInfo (updateStats sample_host)))
    by (repeat constructor).
  split; [intros; apply insertionSort_permutes|].
  split; [intros; now apply insertionSort_sorts|].
  split; [reflexivity|]. split; [reflexivity|]. split; [exact Hnan|].
  apply (sorted_rows insertionSort
           (fun lessf l => insertionSort_permutes _ lessf l)
           (fun lessf l => insertionSort_sorts _ lessf l)
           cpu false (updateStats sample_host) initialModel
           eq_refl eq_refl Hnan).
Defined.

(** C2 as stated fails on a Snapshot with a NaN: however [sort.Slice]
    rearranges [nan_input], one of the two neighbours is not [>=] the
    other, every comparison with a NaN being false. *)
Lemma sorted_rows_nan_counterexample :
  ~ exists srt,
      (forall lessf (l : list ProcessInfo), Permutation l (srt lessf l)) /\
      adjacent (key_ordered cpu false)
        (retained srt nan_input (criterion_name cpu) false).
Proof.
  intros (srt & Hperm & Hadj). unfold retained in Hadj.
  pose proof (Hperm (less (criterion_name cpu) false) nan_input) as H.
  unfold nan_input in H at 1.
  apply Permutation_length_2_inv in H.
  destruct H as [H|H]; rewrite H in Hadj;
    specialize (Hadj 0%nat _ _ eq_refl eq_refl); discriminate Hadj.
Qed.

(** What the insertion sort makes of [nan_input] under cpu, descending:
    the NaN stays in front of 5. *)
Lemma nan_input_sorted :
  retained insertionSort nan_input "cpu" false = nan_input.
Proof. reflexivity. Qed.

(** C4 at the sample data.  After the Snapshot the rows are in the order of
    cpu, descending.  The key [p] sets the directive to pid, ascending, and
    leaves the rows where they were: the process 2 still stands above the
    process 1, which is not what the rows derived under the new directive
    are. *)
Theorem sort_key_leaves_rows_stale :
  let m0 := fst (Update insertionSort
                   (statsMsg (updateStats sample_host)) initialModel) in
  let m1 := fst (Update insertionSort (KeyMsg "p") m0) in
  sortBy m1 = "pid" /\
  ascending m1 = true /\
  rows (table m1) = rows (table m0) /\
  rows (table m1)
  = [ ["2"; "administ"; "90.0"; "2.0"; "R"; "b"];
      ["1"; "root"; "10.0"; "1.0"; "S"; "a"] ] /\
  deriveRows insertionSort (processInfo (stats m1)) (sortBy m1) (ascending m1)
  = [ ["1"; "root"; "10.0"; "1.0"; "S"; "a"];
      ["2"; "administ"; "90.0"; "2.0"; "R"; "b"] ].
Proof. vm_compute. repeat split. Qed.

Lemma rows_deterministic_witness :
  processInfo (updateStats sample_host)
  = processInfo (updateStats sample_host) /\
  sortBy initialModel = sortBy (set_lastUpdate 7 initialModel) /\
  ascending initialModel = ascending (set_lastUpdate 7 initialModel) /\
  rows (table (fst (Update insertionSort
                      (statsMsg (updateStats sample_host)) initialModel)))
  = rows (table (fst (Update insertionSort
                        (statsMsg (updateStats sample_host))
                        (set_lastUpdate 7 initialModel)))) /\
  rows (table (fst (Update insertionSort
                      (statsMsg (updateStats sample_host)) initialModel)))
  = deriveRows insertionSort (processInfo (updateStats sample_host))
      (sortBy initialModel) (ascending initialModel).
Proof.
  split; [reflexivity|]. split; [reflexivity|]. split; [reflexivity|].
  apply (rows_deterministic insertionSort
           (updateStats sample_host) (updateStats sample_host)
           initialModel (set_lastUpdate 7 initialModel));
    reflexivity.
Defined.

Lemma criterion_invariant_witness :
  reachable insertionSort
    (fst (Update insertionSort (KeyMsg "m") initialModel)) /\
  (sortBy initialModel = "cpu" /\ ascending initialModel = false) /\
  (exists c,
      sortBy (fst (Update insertionSort (KeyMsg "m") initialModel))
      = criterion_name c) /\
  less_branch (sortBy (fst (Update insertionSort (KeyMsg "m") initialModel)))
  <> FallThrough /\
  (forall key,
      ~ In key ["q"; "ctrl+c"; "c"; "m"; "p"; "n"] ->
      sortBy (fst (Update insertionSort (KeyMsg key)
                     (fst (Update insertionSort (KeyMsg "m") initialModel))))
      = sortBy (fst (Update insertionSort (KeyMsg "m") initialModel)) /\
      ascending (fst (Update insertionSort (KeyMsg key)
                        (fst (Update insertionSort (KeyMsg "m")
                                initialModel))))
      = ascending (fst (Update insertionSort (KeyMsg "m") initialModel))).
Proof.
  assert (Hm : reachable insertionSort
                 (fst (Update insertionSort (KeyMsg "m") initialModel)))
    by (apply reach_step; apply reach_init).
  split; [exact Hm|].
  apply (criterion_invariant insertionSort _ Hm).
Defined.

(** ** The scenarios of the specification *)

(** Three processes, one without a name, under cpu descending: the rows of
    process 2 and process 1, in this order. *)
Example scenario_three_processes :
  rows (table (fst (Update insertionSort
                      (statsMsg (updateStats sample_host)) initialModel)))
  = [ ["2"; "administ"; "90.0"; "2.0"; "R"; "b"];
      ["1"; "root"; "10.0"; "1.0"; "S"; "a"] ].
Proof. reflexivity. Qed.

(** Sixty processes with a name: fifty rows, those of the fifty highest cpu
    percentages. *)
Example scenario_sixty_processes :
  let ps := map (fun i => mkProcessInfo (Z.of_nat i) "p" (f64 (Z.of_nat i))
                            (f64 0) "S" "root") (seq 1 60) in
  let rs := deriveRows insertionSort ps "cpu" false in
  List.length rs = 50%nat /\
  map (fun r => nth 0 r "") rs
  = map (fun i => Go.Itoa (Z.of_nat i)) (rev (seq 11 50)).
Proof. vm_compute. split; reflexivity. Qed.

(** Ten cores: eight percentages and the two cores left out. *)
Example scenario_ten_cores :
  view_cpu (mkSystemStats 0 None (map f64 [1; 2; 3; 4; 5; 6; 7; 8; 9; 10]%Z)
              None [] []) []
  = [ Styled systemInfoStyle "CPU: ";
      Text "1.0%"; Text " "; Text "2.0%"; Text " "; Text "3.0%"; Text " ";
      Text "4.0%"; Text " "; Text "5.0%"; Text " "; Text "6.0%"; Text " ";
      Text "7.0%"; Text " "; Text "8.0%"; Text " (+2 more)"; Text newline ].
Proof. reflexivity. Qed.

(** ** The further properties at the sample data *)

Lemma uptime_exact_witness :
  host_Info sample_host = Some 3600%Z /\
  (0 <= 3600 <= 9223372036)%Z /\
  uptime (updateStats sample_host) = (3600 * 1000000000)%Z /\
  ((0 < uptime (updateStats sample_host))%Z <-> (0 < 3600)%Z).
Proof.
  split; [reflexivity|]. split; [lia|].
  apply (uptime_exact sample_host 3600); [reflexivity|lia].
Defined.

Lemma directive_changes_only_on_sort_keys_witness :
  (forall x, statsMsg (updateStats sample_host) <> KeyMsg (sort_key x)) /\
  sortBy (fst (Update insertionSort (statsMsg (updateStats sample_host))
                 initialModel))
  = sortBy initialModel /\
  ascending (fst (Update insertionSort (statsMsg (updateStats sample_host))
                    initialModel))
  = ascending initialModel.
Proof.
  split; [intros x; discriminate|].
  apply (directive_changes_only_on_sort_keys insertionSort).
  intros x. discriminate.
Defined.

Lemma snapshot_changes_only_on_stats_witness :
  (forall S, KeyMsg "p" <> statsMsg S) /\
  stats (fst (Update insertionSort (KeyMsg "p")
                (fst (Update insertionSort
                        (statsMsg (updateStats sample_host)) initialModel))))
  = stats (fst (Update insertionSort
                  (statsMsg (updateStats sample_host)) initialModel)) /\
  rows (table (fst (Update insertionSort (KeyMsg "p")
                      (fst (Update insertionSort
                              (statsMsg (updateStats sample_host))
                              initialModel)))))
  = rows (table (fst (Update insertionSort
                        (statsMsg (updateStats sample_host)) initialModel))).
Proof.
  split; [intros S; discriminate|].
  apply (snapshot_changes_only_on_stats insertionSort).
  intros S. discriminate.
Defined.

Lemma lastUpdate_changes_only_on_tick_witness :
  (forall t, WindowSizeMsg 80 24 <> tickMsg t) /\
  lastUpdate (fst (Update insertionSort (WindowSizeMsg 80 24)
                     (set_lastUpdate 7 initialModel)))
  = lastUpdate (set_lastUpdate 7 initialModel).
Proof.
  split; [intros t; discriminate|].
  apply (lastUpdate_changes_only_on_tick insertionSort).
  intros t. discriminate.
Defined.

Lemma reachable_rows_of_stored_witness :
  reachable insertionSort
    (fst (Update insertionSort (statsMsg (updateStats sample_host))
            initialModel)) /\
  rows (table (fst (Update insertionSort (statsMsg (updateStats sample_host))
                      initialModel)))
  = map mkRow
      (firstn 50
         (processInfo
            (stats (fst (Update insertionSort
                           (statsMsg (updateStats sample_host))
                           initialModel))))).
Proof.
  assert (Hm : reachable insertionSort
                 (fst (Update insertionSort
                         (statsMsg (updateStats sample_host)) initialModel)))
    by (apply reach_step; apply reach_init).
  split; [exact Hm|].
  apply (reachable_rows_of_stored insertionSort _ Hm).
Defined.

Lemma reachable_table_shape_witness :
  reachable insertionSort
    (fst (Update insertionSort (statsMsg (updateStats sample_host))
            initialModel)) /\
  cols (table (fst (Update insertionSort
                      (statsMsg (updateStats sample_host)) initialModel)))
  = cols (table initialModel) /\
  (List.length
     (rows (table (fst (Update insertionSort
                         (statsMsg (updateStats sample_host))
                         initialModel)))) <= 50)%nat /\
  Forall (fun r =>
            List.length r
            = List.length
                (cols (table (fst (Update insertionSort
                                     (statsMsg (updateStats sample_host))
                                     initialModel)))))
         (rows (table (fst (Update insertionSort
                              (statsMsg (updateStats sample_host))
                              initialModel)))) /\
  err (fst (Update insertionSort (statsMsg (updateStats sample_host))
              initialModel)) = None.
Proof.
  assert (Hm : reachable insertionSort
                 (fst (Update insertionSort
                         (statsMsg (updateStats sample_host)) initialModel)))
    by (apply reach_step; apply reach_init).
  split; [exact Hm|].
  apply (reachable_table_shape insertionSort _ Hm).
Defined.

Lemma sort_indicator_reachable_witness :
  reachable insertionSort
    (fst (Update insertionSort (KeyMsg "n") initialModel)) /\
  exists c,
    view_sort_indicator
      (fst (Update insertionSort (KeyMsg "n") initialModel)) []
    = [] ++ [Text ("Sorted by: " ++ criterion_name c ++ " ("
                   ++ (if ascending (fst (Update insertionSort (KeyMsg "n")
                                            initialModel))
                       then "ascending" else "descending")
                   ++ ")" ++ newline ++ newline)].
Proof.
  assert (Hm : reachable insertionSort
                 (fst (Update insertionSort (KeyMsg "n") initialModel)))
    by (apply reach_step; apply reach_init).
  split; [exact Hm|].
  apply (sort_indicator_reachable insertionSort _ [] Hm).
Defined.

Lemma resize_commutes_witness :
  (forall w' h', statsMsg (updateStats sample_host) <> WindowSizeMsg w' h') /\
  rows (table (fst (Update insertionSort
                      (statsMsg (updateStats sample_host))
                      (fst (Update insertionSort (WindowSizeMsg 80 24)
                              initialModel)))))
  = rows (table (fst (Update insertionSort (WindowSizeMsg 80 24)
                        (fst (Update insertionSort
                                (statsMsg (updateStats sample_host))
                                initialModel))))) /\
  width (table (fst (Update insertionSort
                       (statsMsg (updateStats sample_host))
                       (fst (Update insertionSort (WindowSizeMsg 80 24)
                               initialModel)))))
  = width (table (fst (Update insertionSort (WindowSizeMsg 80 24)
                         (fst (Update insertionSort
                                 (statsMsg (updateStats sample_host))
                                 initialModel))))).
Proof.
  assert (Hmsg : forall w' h',
             statsMsg (updateStats sample_host) <> WindowSizeMsg w' h')
    by (intros w' h'; discriminate).
  split; [exact Hmsg|].
  pose proof (resize_commutes insertionSort
                (statsMsg (updateStats sample_host)) initialModel 80 24 Hmsg)
    as (_ & _ & _ & _ & _ & Hrows & _ & Hwidth & _).
  split; [exact Hrows | exact Hwidth].
Defined.

Lemma resize_in_range_witness :
  (0 <= 3 < 2 ^ 63)%Z /\
  (0 <= 24 < 2 ^ 63)%Z /\
  width (table (fst (Update insertionSort (WindowSizeMsg 3 24)
                       initialModel))) = (3 - 4)%Z /\
  height (table (fst (Update insertionSort (WindowSizeMsg 3 24)
                        initialModel))) = (24 - 12)%Z /\
  ((3 < 4)%Z ->
   (width (table (fst (Update insertionSort (WindowSizeMsg 3 24)
                         initialModel))) < 0)%Z) /\
  ((24 < 12)%Z ->
   (height (table (fst (Update insertionSort (WindowSizeMsg 3 24)
                          initialModel))) < 0)%Z).
Proof.
  split; [lia|]. split; [lia|].
  apply (resize_in_range insertionSort initialModel 3 24); lia.
Defined.

Lemma snapshot_replaces_witness :
  (forall lessf (l : list ProcessInfo),
      Permutation l (insertionSort lessf l)) /\
  uptime (stats (fst (Update insertionSort
                        (statsMsg (updateStats sample_host)) initialModel)))
  = uptime (updateStats sample_host) /\
  loadAvg (stats (fst (Update insertionSort
                         (statsMsg (updateStats sample_host)) initialModel)))
  = loadAvg (updateStats sample_host) /\
  cpuPercent (stats (fst (Update insertionSort
                            (statsMsg (updateStats sample_host))
                            initialModel)))
  = cpuPercent (updateStats sample_host) /\
  memStats (stats (fst (Update insertionSort
                          (statsMsg (updateStats sample_host))
                          initialModel)))
  = memStats (updateStats sample_host) /\
  processes (stats (fst (Update insertionSort
                           (statsMsg (updateStats sample_host))
                           initialModel)))
  = processes (updateStats sample_host) /\
  Permutation
    (processInfo (updateStats sample_host))
    (processInfo (stats (fst (Update insertionSort
                                (statsMsg (updateStats sample_host))
                                initialModel)))) /\
  sortBy (fst (Update insertionSort (statsMsg (updateStats sample_host))
                 initialModel))
  = sortBy initialModel /\
  ascending (fst (Update insertionSort (statsMsg (updateStats sample_host))
                    initialModel))
  = ascending initialModel.
Proof.
  split; [intros; apply insertionSort_permutes|].
  apply (snapshot_replaces insertionSort
           (fun lessf l => insertionSort_permutes _ lessf l)
           (updateStats sample_host) initialModel).
Defined.

Lemma rows_from_snapshot_witness :
  (forall lessf (l : list ProcessInfo),
      Permutation l (insertionSort lessf l)) /\
  exists kept dropped,
    Permutation (processInfo (updateStats sample_host)) (kept ++ dropped) /\
    rows (table (fst (Update insertionSort
                        (statsMsg (updateStats sample_host)) initialModel)))
    = map mkRow kept /\
    ((List.length (processInfo (updateStats sample_host)) <= 50)%nat ->
     dropped = []).
Proof.
  split; [intros; apply insertionSort_permutes|].
  apply (rows_from_snapshot insertionSort
           (fun lessf l => insertionSort_permutes _ lessf l)
           (updateStats sample_host) initialModel).
Defined.

Lemma top_fifty_witness :
  (forall lessf (l : list ProcessInfo),
      Permutation l (insertionSort lessf l)) /\
  (forall lessf (l : list ProcessInfo),
      transitive_ordering_on lessf l ->
      ascending_for lessf (insertionSort lessf l)) /\
  sortBy initialModel = criterion_name cpu /\
  ascending initialModel = false /\
  nan_free cpu (processInfo (updateStats sample_host)) /\
  rows (table (fst (Update insertionSort
                      (statsMsg (updateStats sample_host)) initialModel)))
  = map mkRow
      (firstn 50
         (processInfo
            (stats (fst (Update insertionSort
                           (statsMsg (updateStats sample_host))
                           initialModel))))) /\
  (forall i j a b,
      (i < j)%nat ->
      nth_error
        (processInfo
           (stats (fst (Update insertionSort
                          (statsMsg (updateStats sample_host))
                          initialModel)))) i = Some a ->
      nth_error
        (processInfo
           (stats (fst (Update insertionSort
                          (statsMsg (updateStats sample_host))
                          initialModel)))) j = Some b ->
      key_ordered cpu false a b) /\
  (forall a b,
      In a (firstn 50
              (processInfo
                 (stats (fst (Update insertionSort
                                (statsMsg (updateStats sample_host))
                                initialModel))))) ->
      In b (skipn 50
              (processInfo
                 (stats (fst (Update insertionSort
                                (statsMsg (updateStats sample_host))
                                initialModel))))) ->
      key_ordered cpu false a b).
Proof.
  assert (Hnan : nan_free cpu (processInfo (updateStats sample_host)))
    by (repeat constructor).
  split; [intros; apply insertionSort_permutes|].
  split; [intros; now apply insertionSort_sorts|].
  split; [reflexivity|]. split; [reflexivity|]. split; [exact Hnan|].
  apply (top_fifty insertionSort
           (fun lessf l => insertionSort_permutes _ lessf l)
           (fun lessf l => insertionSort_sorts _ lessf l)
           cpu false (updateStats sample_host) initialModel
           eq_refl eq_refl Hnan).
Defined.


Lemma pid_directions_reverse_witness :
  (forall lessf (l : list ProcessInfo),
      Permutation l (insertionSort lessf l)) /\
  (forall lessf (l : list ProcessInfo),
      transitive_ordering_on lessf l ->
      ascending_for lessf (insertionSort lessf l)) /\
  sortBy (set_sort "pid" initialModel) = "pid" /\
  ascending (set_sort "pid" initialModel) = true /\
  sortBy (set_sort "pid" (set_sort "pid" initialModel)) = "pid" /\
  ascending (set_sort "pid" (set_sort "pid" initialModel)) = false /\
  NoDup (map PID (processInfo (updateStats sample_host))) /\
  processInfo
    (stats (fst (Update insertionSort (statsMsg (updateStats sample_host))
                   (set_sort "pid" initialModel))))
  = rev (processInfo
           (stats (fst (Update insertionSort
                          (statsMsg (updateStats sample_host))
                          (set_sort "pid" (set_sort "pid" initialModel)))))) /\
  ((List.length (processInfo (updateStats sample_host)) <= 50)%nat ->
   rows (table (fst (Update insertionSort
                       (statsMsg (updateStats sample_host))
                       (set_sort "pid" initialModel))))
   = rev (rows (table (fst (Update insertionSort
                              (statsMsg (updateStats sample_host))
                              (set_sort "pid"
                                 (set_sort "pid" initialModel))))))).
Proof.
  assert (Hnd : NoDup (map PID (processInfo (updateStats sample_host)))).
  { repeat constructor; simpl; intuition discriminate. }
  split; [intros; apply insertionSort_permutes|].
  split; [intros; now apply insertionSort_sorts|].
  split; [reflexivity|]. split; [reflexivity|].
  split; [reflexivity|]. split; [reflexivity|]. split; [exact Hnd|].
  apply (pid_directions_reverse insertionSort
           (fun lessf l => insertionSort_permutes _ lessf l)
           (fun lessf l => insertionSort_sorts _ lessf l)
           (updateStats sample_host)
           (set_sort "pid" initialModel)
           (set_sort "pid" (set_sort "pid" initialModel))
           eq_refl eq_refl eq_refl eq_refl Hnd).
Defined.

Lemma pid_order_canonical_witness :
  (forall lessf (l : list ProcessInfo),
      Permutation l (insertionSort lessf l)) /\
  (forall lessf (l : list ProcessInfo),
      transitive_ordering_on lessf l ->
      ascending_for lessf (insertionSort lessf l)) /\
  sortBy (set_sort "pid" initialModel) = "pid" /\
  Permutation
    (processInfo (updateStats sample_host))
    (processInfo
       (set_processInfo (rev (processInfo (updateStats sample_host)))
          (updateStats sample_host))) /\
  NoDup (map PID (processInfo (updateStats sample_host))) /\
  processInfo
    (stats (fst (Update insertionSort (statsMsg (updateStats sample_host))
                   (set_sort "pid" initialModel))))
  = processInfo
      (stats (fst (Update insertionSort
                     (statsMsg
                        (set_processInfo
                           (rev (processInfo (updateStats sample_host)))
                           (updateStats sample_host)))
                     (set_sort "pid" initialModel)))) /\
  rows (table (fst (Update insertionSort
                      (statsMsg (updateStats sample_host))
                      (set_sort "pid" initialModel))))
  = rows (table (fst (Update insertionSort
                        (statsMsg
                           (set_processInfo
                              (rev (processInfo (updateStats sample_host)))
                              (updateStats sample_host)))
                        (set_sort "pid" initialModel)))).
Proof.
  assert (Hnd : NoDup (map PID (processInfo (updateStats sample_host)))).
  { repeat constructor; simpl; intuition discriminate. }
  assert (Hperm : Permutation
                    (processInfo (updateStats sample_host))
                    (processInfo
                       (set_processInfo
                          (rev (processInfo (updateStats sample_host)))
                          (updateStats sample_host))))
    by apply Permutation_rev.
  split; [intros; apply insertionSort_permutes|].
  split; [intros; now apply insertionSort_sorts|].
  split; [reflexivity|]. split; [exact Hperm|]. split; [exact Hnd|].
  apply (pid_order_canonical insertionSort
           (fun lessf l => insertionSort_permutes _ lessf l)
           (fun lessf l => insertionSort_sorts _ lessf l)
           (updateStats sample_host)
           (set_processInfo (rev (processInfo (updateStats sample_host)))
              (updateStats sample_host))
           (set_sort "pid" initialModel) eq_refl Hperm Hnd).
Defined.

(** ** The two truncation laws read in characters *)

(** C5 as stated fails on a name with letters of more than one byte:
    [accented_name] has 15 characters, fewer than 28, in 30 bytes, and its
    command cell is not the name, whichever way [sort.Slice] arranges the
    one record. *)
Lemma name_truncation_characters_counterexample :
  rune_count accented_name = 15%nat /\
  Go.len accented_name = 30%nat /\
  ~ exists srt,
      (forall lessf (l : list ProcessInfo), Permutation l (srt lessf l)) /\
      Forall2
        (fun p r =>
           (rune_count (Name p) <= 28)%nat -> nth 5 r "" = Name p)
        (retained srt [accented_record] "cpu" false)
        (deriveRows srt [accented_record] "cpu" false).
Proof.
  split; [reflexivity|]. split; [reflexivity|].
  intros (srt & Hperm & H).
  pose proof (Hperm (less "cpu" false) [accented_record]) as E.
  apply Permutation_length_1_inv in E.
  unfold retained, deriveRows in H. rewrite E in H.
  inversion H as [|p r ps rs Hhead Htail]; subst.
  assert (Hshort : (rune_count (Name accented_record) <= 28)%nat)
    by (vm_compute; repeat constructor).
  specialize (Hhead Hshort). vm_compute in Hhead. discriminate Hhead.
Qed.

(** C6 as stated fails in the same way: [accented_user] has 8 characters in
    9 bytes, and the user stored for its process is cut after the eighth
    byte, inside the last letter. *)
Lemma user_truncation_characters_counterexample :
  rune_count accented_user = 8%nat /\
  Go.len accented_user = 9%nat /\
  ~ Forall2
      (fun p info =>
         (rune_count (proc_Username p) <= 8)%nat ->
         User info = proc_Username p)
      (named [Some accented_process])
      (getProcessInfo [Some accented_process]).
Proof.
  split; [reflexivity|]. split; [reflexivity|].
  intros H.
  inversion H as [|p info ps infos Hhead Htail]; subst.
  assert (Hshort : (rune_count (proc_Username accented_process) <= 8)%nat)
    by (vm_compute; repeat constructor).
  specialize (Hhead Hshort). vm_compute in Hhead. discriminate Hhead.
Qed.
